(** * BabelStream: the STD-indices and Thrust backends

    A shallow embedding of [src/std-indices/STDIndicesStream.cpp] and
    [src/thrust/ThrustStream.cu], and the properties of their kernels.

    Conventions of the model.
    - The element type [T] of the class templates is a type with the
      operations the kernels use ([Elem]); the two instantiations the sources
      make, [float] and [double], are IEEE 754 binary32 and binary64 with
      round-to-nearest-even, taken from the Standard Library's [SpecFloat].
    - The three arrays are lists; an access outside an array is undefined
      behaviour in C++ and is the error [None] of the option monad here.
    - The parallel algorithms ([std::transform], [thrust::transform], ...)
      apply their element access functions once per index; the model runs the
      indices in increasing order on the shared arrays, so that a kernel which
      reads the array it writes ([nstream]) sees the memory as it is when its
      index is reached.
    - [std::transform_reduce] with an execution policy and
      [thrust::inner_product] fix neither the order nor the grouping of their
      additions: the model takes them from a reduction plan that the library
      chooses ([Reduction]).
    - [startScalar] is declared outside the given sources, with one type for
      both instantiations of the classes.  It is a parameter here: a value of
      type [T] or of type [double] ([number]). *)

From Stdlib Require Import ZArith NArith Floats.SpecFloat.
From stdpp Require Import base option list strings pretty.

(** ** Element types *)

(** IEEE 754 binary64 and binary32. *)
Definition double := spec_float.
Definition float := spec_float.

Definition double_add : double → double → double := SFadd 53 1024.
Definition double_mul : double → double → double := SFmul 53 1024.
Definition float_add : float → float → float := SFadd 24 128.
Definition float_mul : float → float → float := SFmul 24 128.

(** Conversions between the two formats: [float] to [double] is exact,
    [double] to [float] rounds to nearest even. *)
Definition double_of_float (x : float) : double :=
  match x with
  | S754_finite s m e => binary_round 53 1024 s m e
  | _ => x
  end.

Definition float_of_double (x : double) : float :=
  match x with
  | S754_finite s m e => binary_round 24 128 s m e
  | _ => x
  end.

(** The literal [0.0], of type [double]. *)
Definition double_zero : double := S754_zero false.

(** What the kernels need of the template parameter [T]: [operator+],
    [operator*], the value-initialised [T{}], and the implicit conversions
    to and from [double], for the operands of type [double] that the sources
    combine with a [T]: the literal [0.0] in [dot] of the STD-indices
    backend, and [startScalar]. *)
Class Elem (T : Type) := {
  elem_add : T → T → T;
  elem_mul : T → T → T;
  elem_zero : T;
  to_double : T → double;
  of_double : double → T;
}.

Declare Scope elem_scope.
Delimit Scope elem_scope with E.
Infix "+" := elem_add : elem_scope.
Infix "*" := elem_mul : elem_scope.

(** A value of type [T] or of type [double], as the operands of a C++
    expression over the two types are.  For [T = double] the two cases are
    the same C++ type, and the conversions of [Elem] are the identity. *)
Inductive number (T : Type) :=
  | InT (t : T)
  | InDouble (d : double).
Arguments InT {T} _.
Arguments InDouble {T} _.

Section Numbers.
Context {T : Type} {E : Elem T}.

(** Conversion to [T], as on an assignment to a [T] or on [return] from a
    function that returns [T]; and to [double]. *)
Definition as_T (x : number T) : T :=
  match x with InT t => t | InDouble d => of_double d end.

Definition as_double (x : number T) : double :=
  match x with InT t => to_double t | InDouble d => d end.

(** [x + y] and [x * y] under the usual arithmetic conversions: in [T] when
    both operands are of type [T], in [double] when one is a [double]. *)
Definition usual_add (x y : number T) : number T :=
  match x, y with
  | InT t, InT u => InT (t + u)%E
  | _, _ => InDouble (double_add (as_double x) (as_double y))
  end.

Definition usual_mul (x y : number T) : number T :=
  match x, y with
  | InT t, InT u => InT (t * u)%E
  | _, _ => InDouble (double_mul (as_double x) (as_double y))
  end.
End Numbers.

(** [template class ...<float>] and [template class ...<double>]. *)
Definition float_Elem : Elem float :=
  {| elem_add := float_add; elem_mul := float_mul;
     elem_zero := S754_zero false;
     to_double := double_of_float; of_double := float_of_double |}.

Definition double_Elem : Elem double :=
  {| elem_add := double_add; elem_mul := double_mul;
     elem_zero := S754_zero false;
     to_double := λ x, x; of_double := λ x, x |}.

(** The integer a floating-point number is, when it is one. *)
Definition SFtoZ (x : spec_float) : option Z :=
  match x with
  | S754_zero _ => Some 0%Z
  | S754_finite s m e =>
      if (0 <=? e)%Z then Some (cond_Zopp s (Z.pos m * 2 ^ e))
      else if (Z.pos m mod 2 ^ (- e) =? 0)%Z
           then Some (cond_Zopp s (Z.pos m / 2 ^ (- e)))
           else None
  | _ => None
  end.

(** The number of the format with precision [prec] nearest to an integer. *)
Definition SFofZ (prec emax : Z) (z : Z) : spec_float :=
  binary_normalize prec emax z 0 false.

Definition float_of_Z : Z → float := SFofZ 24 128.
Definition double_of_Z : Z → double := SFofZ 53 1024.

(** The two element types the sources instantiate the classes with. *)
Inductive format := Float | Double.

Definition format_prec (fmt : format) : Z :=
  match fmt with Float => 24%Z | Double => 53%Z end.

Definition format_emax (fmt : format) : Z :=
  match fmt with Float => 128%Z | Double => 1024%Z end.

Definition format_Elem (fmt : format) : Elem spec_float :=
  match fmt with Float => float_Elem | Double => double_Elem end.

Definition format_of_Z (fmt : format) : Z → spec_float :=
  match fmt with Float => float_of_Z | Double => double_of_Z end.

(** The integer [z] as a scalar of the element type, or as a [double]. *)
Definition format_scalar (fmt : format) (wide : bool) (z : Z)
  : number spec_float :=
  if wide then InDouble (double_of_Z z) else InT (format_of_Z fmt z).

(** A mantissa of exactly [prec] bits. *)
Definition normal (prec : Z) (m : positive) : Prop :=
  (2 ^ (prec - 1) ≤ Z.pos m < 2 ^ prec)%Z.

(** [x] is the normalised number of precision [prec] whose value is the
    positive integer [X]: its mantissa [m] and exponent [e] satisfy
    [m * 2 ^ e = X], written without negative powers. *)
Definition is_int (prec : Z) (x : spec_float) (X : Z) : Prop :=
  ∃ m e, x = S754_finite false m e ∧ normal prec m ∧ (- prec < e ≤ 1)%Z ∧
         (Z.pos m * 2 ^ (e + prec) = X * 2 ^ prec)%Z.

(** [x] is the natural number [X]: [+0], or a positive integer. *)
Definition is_nat (prec : Z) (x : spec_float) (X : Z) : Prop :=
  if (X =? 0)%Z then x = S754_zero false else is_int prec x X.

(** The same for a value of the element type of [fmt] or of type
    [double]. *)
Definition number_is_nat (fmt : format) (v : number spec_float) (X : Z)
  : Prop :=
  match v with
  | InT t => is_nat (format_prec fmt) t X
  | InDouble d => is_nat 53 d X
  end.

(** ** The state of a backend *)

Inductive array := A | B | C.

#[global] Instance array_eq_dec : EqDecision array.
Proof. solve_decision. Defined.

(** [array_size] and the arrays [a], [b], [c] of [STDIndicesStream<T>], and
    of [ThrustStream<T>] with its [Impl]. *)
Record Stream (T : Type) := {
  array_size : nat;
  a : list T;
  b : list T;
  c : list T;
}.
Arguments array_size {T} _.
Arguments a {T} _.
Arguments b {T} _.
Arguments c {T} _.

(** The caller's buffers [h_a], [h_b], [h_c] of [read_arrays]. *)
Record Host (T : Type) := {
  h_a : list T;
  h_b : list T;
  h_c : list T;
}.
Arguments h_a {T} _.
Arguments h_b {T} _.
Arguments h_c {T} _.

Section Memory.
Context {T : Type}.

Definition get (x : array) (st : Stream T) : list T :=
    match x with A => a st | B => b st | C => c st end.

Definition set (x : array) (l : list T) (st : Stream T) : Stream T :=
    match x with
    | A => {| array_size := array_size st; a := l; b := b st; c := c st |}
    | B => {| array_size := array_size st; a := a st; b := l; c := c st |}
    | C => {| array_size := array_size st; a := a st; b := b st; c := l |}
    end.

(** [x[i]] read, and [x[i] = v]; [None] outside the array. *)
Definition load (x : array) (i : nat) (st : Stream T) : option T :=
    get x st !! i.

Definition store (x : array) (i : nat) (v : T) (st : Stream T)
    : option (Stream T) :=
    if decide (i < length (get x st))
    then Some (set x (<[i:=v]> (get x st)) st)
    else None.

(** [*(h.begin() + i) = v] on a host vector. *)
Definition host_store (i : nat) (v : T) (h : list T) : option (list T) :=
    if decide (i < length h) then Some (<[i:=v]> h) else None.

(** One access function per index, in increasing order of the indices. *)
Fixpoint for_each (idx : list nat)
      (body : nat → Stream T → option (Stream T)) (st : Stream T)
    : option (Stream T) :=
    match idx with
    | [] => Some st
    | i :: idx' =>
        match body i st with
        | Some st' => for_each idx' body st'
        | None => None
        end
    end.

(** Copy of the elements at [idx] of a backend array to a host vector. *)
Fixpoint copy_to_host (idx : list nat) (x : array) (st : Stream T)
      (h : list T) : option (list T) :=
    match idx with
    | [] => Some h
    | i :: idx' =>
        match load x i st with
        | Some v =>
            match host_store i v h with
            | Some h' => copy_to_host idx' x st h'
            | None => None
            end
        | None => None
        end
    end.

(** The constructors give the three arrays [array_size] elements. *)
Definition wf (st : Stream T) : Prop :=
    length (a st) = array_size st ∧
    length (b st) = array_size st ∧
    length (c st) = array_size st.

(** A kernel called [R] times in a row. *)
Definition repeat_kernel (R : N) (kernel : Stream T → option (Stream T))
      (st : Stream T) : option (Stream T) :=
    N.iter R (λ o, o ≫= kernel) (Some st).
End Memory.

(** ** Parallel reductions

    The sum that [std::transform_reduce] or [thrust::inner_product] returns
    is a generalised sum: the initial value and the products are added in an
    order and a grouping that the library chooses.  For
    [std::transform_reduce], whose initial value [0.0] is a [double], the
    type of each addition is the library's choice as well: [std::plus<>] of
    the C++ standard adds a [double] operand in [double], while libstdc++
    and oneDPL pass [std::plus] of the iterators' value type, which adds in
    [T]. *)

(** The additions of one reduction: the initial value, the product at an
    index, and the sum of two partial results, in [double] when [wide]. *)
Inductive plan :=
  | Init
  | Prod (i : nat)
  | Sum (wide : bool) (l r : plan).

(** The indices whose products a plan adds, and how often it adds the
    initial value. *)
Fixpoint indices (p : plan) : list nat :=
  match p with
  | Init => []
  | Prod i => [i]
  | Sum _ l r => indices l ++ indices r
  end.

Fixpoint inits (p : plan) : nat :=
  match p with
  | Init => 1
  | Prod _ => 0
  | Sum _ l r => inits l + inits r
  end.

(** A plan for [n] elements adds every product once and the initial value
    once. *)
Definition valid_plan (n : nat) (p : plan) : Prop :=
  indices p ≡ₚ seq 0 n ∧ inits p = 1.

(** What the library does for each number of elements. *)
Class Reduction := {
  reduction_plan : nat → plan;
  reduction_plan_valid : ∀ n, valid_plan n (reduction_plan n);
}.

(** One addition of a plan. *)
Definition plan_add {T : Type} {E : Elem T} (wide : bool) (x y : number T)
  : number T :=
  if wide then InDouble (double_add (as_double x) (as_double y))
  else InT (as_T x + as_T y)%E.

(** The plan of a library that adds the products to the initial value one
    after the other in index order, as the sequential [std::inner_product]
    behind libstdc++'s policies does (with [wide = false]). *)
Fixpoint index_order (wide : bool) (n : nat) : plan :=
  match n with
  | 0 => Init
  | S m => Sum wide (index_order wide m) (Prod m)
  end.

Definition sequential (wide : bool) : Reduction.
Proof.
  refine {| reduction_plan := index_order wide |}.
  intros n. split.
  - induction n as [|n IH]; [done|].
    cbn [index_order indices]. rewrite seq_S. by apply Permutation_app.
  - induction n as [|n IH]; cbn [index_order inits]; lia.
Defined.

(** ** The STD-indices backend, [STDIndicesStream.cpp]

    Built without [USE_VECTOR]: [BEGIN(x)] is [x] and [END(x)] is
    [x + array_size].  The lambdas capture [scalar = startScalar] with the
    type of [startScalar]: their arithmetic follows the usual conversions
    between that type and [T], and the result is converted to [T] when
    [std::transform] stores it. *)
Module STDIndicesStream.
Section Kernels.
Context {T : Type} {E : Elem T} {L : Reduction}.
Variable startScalar : number T.

(** [range(0, array_size)], which is also the span [BEGIN(x)..END(x)]. *)
Definition range (st : Stream T) : list nat := seq 0 (array_size st).

(** [std::fill(exe_policy, BEGIN(x), END(x), v)] *)
Definition fill (x : array) (v : T) (st : Stream T) : option (Stream T) :=
    for_each (range st) (λ i, store x i v) st.

Definition init_arrays (initA initB initC : T) (st : Stream T)
    : option (Stream T) :=
    st1 ← fill A initA st;
    st2 ← fill B initB st1;
    fill C initC st2.

(** [std::copy(BEGIN(x), END(x), h.begin())], three times. *)
Definition read_arrays (h : Host T) (st : Stream T)
    : option (Host T * Stream T) :=
    ha ← copy_to_host (range st) A st (h_a h);
    hb ← copy_to_host (range st) B st (h_b h);
    hc ← copy_to_host (range st) C st (h_c h);
    Some ({| h_a := ha; h_b := hb; h_c := hc |}, st).

(** [std::copy(exe_policy, BEGIN(a), END(a), BEGIN(c))] *)
Definition copy (st : Stream T) : option (Stream T) :=
    for_each (range st) (λ i st, v ← load A i st; store C i v st) st.

(** [std::transform(exe_policy, first, last, d_first, op)]: the values of
      the input range go through [op], the results go to consecutive
      positions from [d_first]. *)
Fixpoint transform (first : list nat) (dst : array) (d_first : nat)
      (op : nat → Stream T → option T) (st : Stream T) : option (Stream T) :=
    match first with
    | [] => Some st
    | i :: rest =>
        match op i st with
        | Some v =>
            match store dst d_first v st with
            | Some st' => transform rest dst (S d_first) op st'
            | None => None
            end
        | None => None
        end
    end.

(** [b[i] = scalar * c[i]] *)
Definition mul (st : Stream T) : option (Stream T) :=
    transform (range st) B 0
      (λ i st, ci ← load C i st;
               Some (as_T (usual_mul startScalar (InT ci)))) st.

(** [c[i] = a[i] + b[i]] *)
Definition add (st : Stream T) : option (Stream T) :=
    transform (range st) C 0
      (λ i st, ai ← load A i st; bi ← load B i st; Some (ai + bi)%E) st.

(** [a[i] = b[i] + scalar * c[i]] *)
Definition triad (st : Stream T) : option (Stream T) :=
    transform (range st) A 0
      (λ i st, bi ← load B i st; ci ← load C i st;
               Some (as_T (usual_add (InT bi)
                             (usual_mul startScalar (InT ci))))) st.

(** [a[i] = a[i] + b[i] + scalar * c[i]] *)
Definition nstream (st : Stream T) : option (Stream T) :=
    transform (range st) A 0
      (λ i st, ai ← load A i st; bi ← load B i st; ci ← load C i st;
               Some (as_T (usual_add (usual_add (InT ai) (InT bi))
                             (usual_mul startScalar (InT ci))))) st.

(** [std::transform_reduce(exe_policy, BEGIN(a), END(a), BEGIN(b), 0.0)]:
      a generalised sum of the initial value, a [double], and of the
      products [a[i] * b[i]], each a [T], added in the order and grouping of
      the plan. *)
Fixpoint transform_reduce (p : plan) (st : Stream T) : option (number T) :=
    match p with
    | Init => Some (InDouble double_zero)
    | Prod i =>
        match load A i st, load B i st with
        | Some ai, Some bi => Some (InT (ai * bi)%E)
        | _, _ => None
        end
    | Sum wide l r =>
        match transform_reduce l st, transform_reduce r st with
        | Some x, Some y => Some (plan_add wide x y)
        | _, _ => None
        end
    end.

(** The result is converted to the return type [T]. *)
Definition dot (st : Stream T) : option (T * Stream T) :=
    r ← transform_reduce (reduction_plan (array_size st)) st;
    Some (as_T r, st).
End Kernels.

Definition getDeviceName (device : Z) : string := "Device name unavailable".

Definition getDeviceDriver (device : Z) : string :=
    "Device driver unavailable".
End STDIndicesStream.

(** ** The Thrust backend, [ThrustStream.cu]

    The arrays are Thrust vectors, from [x.begin()] to [x.end()]. *)
Module ThrustStream.
Section Kernels.
Context {T : Type} {E : Elem T} {L : Reduction}.
Variable startScalar : number T.

(** [const T scalar = startScalar;] *)
Definition scalar : T := as_T startScalar.

(** The positions from [x.begin()] to [x.end()]. *)
Definition positions (x : array) (st : Stream T) : list nat :=
    seq 0 (length (get x st)).

(** [thrust::fill(x.begin(), x.end(), v)] *)
Definition fill (x : array) (v : T) (st : Stream T) : option (Stream T) :=
    for_each (positions x st) (λ i, store x i v) st.

Definition init_arrays (initA initB initC : T) (st : Stream T)
    : option (Stream T) :=
    st1 ← fill A initA st;
    st2 ← fill B initB st1;
    fill C initC st2.

(** [thrust::copy(x.begin(), x.end(), h.begin())], three times. *)
Definition read_arrays (h : Host T) (st : Stream T)
    : option (Host T * Stream T) :=
    ha ← copy_to_host (positions A st) A st (h_a h);
    hb ← copy_to_host (positions B st) B st (h_b h);
    hc ← copy_to_host (positions C st) C st (h_c h);
    Some ({| h_a := ha; h_b := hb; h_c := hc |}, st).

(** [thrust::copy(a.begin(), a.end(), c.begin())] *)
Definition copy (st : Stream T) : option (Stream T) :=
    for_each (positions A st) (λ i st, v ← load A i st; store C i v st) st.

(** [thrust::transform(first, last, result, op)]: the input iterators
      (zipped, for several arrays) and [result] advance together; the length
      of the input is that of its first array, [x]. *)
Definition transform (x : array) (dst : array)
      (op : nat → Stream T → option T) (st : Stream T) : option (Stream T) :=
    for_each (positions x st)
      (λ i st, v ← op i st; store dst i v st) st.

(** [ci * scalar] over [c], into [b]. *)
Definition mul (st : Stream T) : option (Stream T) :=
    transform C B (λ i st, ci ← load C i st; Some (ci * scalar)%E) st.

(** [ai + bi] over the zip of [a] and [b], into [c]. *)
Definition add (st : Stream T) : option (Stream T) :=
    transform A C
      (λ i st, ai ← load A i st; bi ← load B i st; Some (ai + bi)%E) st.

(** [bi + scalar * ci] over the zip of [b] and [c], into [a]. *)
Definition triad (st : Stream T) : option (Stream T) :=
    transform B A
      (λ i st, bi ← load B i st; ci ← load C i st;
               Some (bi + scalar * ci)%E) st.

(** [ai + bi + scalar * ci] over the zip of [a], [b] and [c], into [a]. *)
Definition nstream (st : Stream T) : option (Stream T) :=
    transform A A
      (λ i st, ai ← load A i st; bi ← load B i st; ci ← load C i st;
               Some (ai + bi + scalar * ci)%E) st.

(** [thrust::inner_product(a.begin(), a.end(), b.begin(), init)]: a
      generalised sum of [init] and of the products [a[i] * b[i]], with
      [thrust::plus<T>] and [thrust::multiplies<T>]: every addition is in
      [T]. *)
Fixpoint inner_product (p : plan) (init : T) (st : Stream T) : option T :=
    match p with
    | Init => Some init
    | Prod i =>
        match load A i st, load B i st with
        | Some ai, Some bi => Some (ai * bi)%E
        | _, _ => None
        end
    | Sum _ l r =>
        match inner_product l init st, inner_product r init st with
        | Some x, Some y => Some (x + y)%E
        | _, _ => None
        end
    end.

(** The initial value is [T{}]; the range is that of [a]. *)
Definition dot (st : Stream T) : option (T * Stream T) :=
    r ← inner_product (reduction_plan (length (a st))) elem_zero st;
    Some (r, st).
End Kernels.

(** [THRUST_DEVICE_SYSTEM], which selects the device functions at compile
      time. *)
Inductive device_system := CUDA | OMP | TBB | CPP | HIP.

(** The backends that run on a device: the first branch of the [#if]. *)
Definition has_device (sys : device_system) : bool :=
    match sys with CUDA | HIP => true | _ => false end.

(** What the CUDA or HIP runtime answers: the name in the properties of a
      device, whether a device can be made current, and the driver version;
      [None] and [false] are the errors on which [check_error] exits. *)
Record Runtime := {
    GetDeviceProperties : Z → option string;
    SetDevice : Z → bool;
    DriverGetVersion : option Z;
  }.

Definition getDeviceName (sys : device_system) (rt : Runtime) (device : Z)
    : option string :=
    if has_device sys then GetDeviceProperties rt device
    else Some "(device name unavailable)".

Definition getDeviceDriver (sys : device_system) (rt : Runtime) (device : Z)
    : option string :=
    if has_device sys then
      if SetDevice rt device then pretty <$> DriverGetVersion rt else None
    else Some "(device driver unavailable)".
End ThrustStream.

(** ** The interface [Stream<T>] that both classes implement *)
Module Backend.
Inductive backend := STDIndices | Thrust.

Section Dispatch.
Context {T : Type} {E : Elem T} {L : Reduction}.
Variable startScalar : number T.

Definition init_arrays (bk : backend) :=
  match bk with
  | STDIndices => STDIndicesStream.init_arrays (T:=T)
  | Thrust => ThrustStream.init_arrays (T:=T)
  end.

Definition read_arrays (bk : backend) :=
  match bk with
  | STDIndices => STDIndicesStream.read_arrays (T:=T)
  | Thrust => ThrustStream.read_arrays (T:=T)
  end.

Definition copy (bk : backend) :=
  match bk with
  | STDIndices => STDIndicesStream.copy (T:=T)
  | Thrust => ThrustStream.copy (T:=T)
  end.

Definition mul (bk : backend) :=
  match bk with
  | STDIndices => STDIndicesStream.mul startScalar
  | Thrust => ThrustStream.mul startScalar
  end.

Definition add (bk : backend) :=
  match bk with
  | STDIndices => STDIndicesStream.add (T:=T)
  | Thrust => ThrustStream.add (T:=T)
  end.

Definition triad (bk : backend) :=
  match bk with
  | STDIndices => STDIndicesStream.triad startScalar
  | Thrust => ThrustStream.triad startScalar
  end.

Definition nstream (bk : backend) :=
  match bk with
  | STDIndices => STDIndicesStream.nstream startScalar
  | Thrust => ThrustStream.nstream startScalar
  end.

Definition dot (bk : backend) :=
  match bk with
  | STDIndices => STDIndicesStream.dot (T:=T)
  | Thrust => ThrustStream.dot (T:=T)
  end.
End Dispatch.
End Backend.

(** ** What the kernels are to compute, on lists *)
Module Contract.
Section Contract.
Context {T : Type} {E : Elem T}.

(** An array with every element equal to [v]. *)
Definition all_equal (n : nat) (v : T) : list T := replicate n v.

(** [f] at every index of three arrays. *)
Definition map3 (f : T → T → T → T) (l1 l2 l3 : list T) : list T :=
  zip_with (λ x yz, f x yz.1 yz.2) l1 (zip l2 l3).

(** The sum of the products in index order, accumulated in [T] from
    [init]. *)
Definition dot_product (init : T) (l1 l2 : list T) : T :=
  foldl elem_add init (zip_with elem_mul l1 l2).

(** The value of a reduction plan on an initial value and a list of
    products.  With [mixed] the additions are in [T] or in [double] as the
    plan says, otherwise all are in [T]. *)
Fixpoint plan_value (mixed : bool) (init : number T) (p : plan)
    (products : list T) : option (number T) :=
  match p with
  | Init => Some init
  | Prod i => InT <$> products !! i
  | Sum wide l r =>
      match plan_value mixed init l products,
            plan_value mixed init r products with
      | Some x, Some y => Some (plan_add (mixed && wide) x y)
      | _, _ => None
      end
  end.

(** [r] is a generalised sum of the initial value and of the products: the
    sum in some order and grouping in which every product and the initial
    value occur once, converted to [T]. *)
Definition generalized_sum (mixed : bool) (init : number T)
    (products : list T) (r : T) : Prop :=
  ∃ p v, valid_plan (length products) p ∧
         plan_value mixed init p products = Some v ∧ r = as_T v.

(** The generalised sum that [dot] of each backend returns: from the
    [double] [0.0] with additions of either type in STD-indices, from [T{}]
    with additions in [T] in Thrust. *)
Definition dot_sum_of (bk : Backend.backend) (products : list T) (r : T)
    : Prop :=
  match bk with
  | Backend.STDIndices =>
      generalized_sum true (InDouble double_zero) products r
  | Backend.Thrust => generalized_sum false (InT elem_zero) products r
  end.

(** What the lambda of a kernel computes for one index, in each backend:
    STD-indices with the scalar in its own type, Thrust with the scalar
    converted to [T]. *)
Definition mul_formula (bk : Backend.backend) (scalar : number T)
    (ci : T) : T :=
  match bk with
  | Backend.STDIndices => as_T (usual_mul scalar (InT ci))
  | Backend.Thrust => (ci * as_T scalar)%E
  end.

Definition triad_formula (bk : Backend.backend) (scalar : number T)
    (bi ci : T) : T :=
  match bk with
  | Backend.STDIndices =>
      as_T (usual_add (InT bi) (usual_mul scalar (InT ci)))
  | Backend.Thrust => (bi + as_T scalar * ci)%E
  end.

Definition nstream_formula (bk : Backend.backend) (scalar : number T)
    (ai bi ci : T) : T :=
  match bk with
  | Backend.STDIndices =>
      as_T (usual_add (usual_add (InT ai) (InT bi))
              (usual_mul scalar (InT ci)))
  | Backend.Thrust => (ai + bi + as_T scalar * ci)%E
  end.

(** The arrays after each kernel, element by element. *)
Definition init_result (x y z : T) (st : Stream T) : Stream T :=
  set C (all_equal (array_size st) z)
    (set B (all_equal (array_size st) y)
       (set A (all_equal (array_size st) x) st)).

Definition copy_result (st : Stream T) : Stream T := set C (a st) st.

Definition add_result (st : Stream T) : Stream T :=
  set C (zip_with elem_add (a st) (b st)) st.

Definition mul_result (bk : Backend.backend) (scalar : number T)
    (st : Stream T) : Stream T :=
  set B (mul_formula bk scalar <$> c st) st.

Definition triad_result (bk : Backend.backend) (scalar : number T)
    (st : Stream T) : Stream T :=
  set A (zip_with (triad_formula bk scalar) (b st) (c st)) st.

Definition nstream_result (bk : Backend.backend) (scalar : number T)
    (st : Stream T) : Stream T :=
  set A (map3 (nstream_formula bk scalar) (a st) (b st) (c st)) st.

(** An element of [a] after [R] calls of [nstream] on arrays filled with
    [x], [y], [z]: [a_0 = x] and [a_r = a_{r-1} + y + scalar * z], the sums
    and the product as the lambda of the backend computes them. *)
Definition nstream_value (bk : Backend.backend) (scalar : number T)
    (x y z : T) (R : N) : T :=
  N.iter R (λ v, nstream_formula bk scalar v y z) x.

(** The host buffers after [read_arrays]: the first [array_size] elements
    are the backend's, the rest is kept. *)
Definition read_result (h : Host T) (st : Stream T) : Host T :=
  {| h_a := a st ++ drop (array_size st) (h_a h);
     h_b := b st ++ drop (array_size st) (h_b h);
     h_c := c st ++ drop (array_size st) (h_c h) |}.

(** Each host buffer has room for [array_size] elements. *)
Definition fits (h : Host T) (st : Stream T) : Prop :=
  array_size st ≤ length (h_a h) ∧
  array_size st ≤ length (h_b h) ∧
  array_size st ≤ length (h_c h).

#[global] Instance fits_dec (h : Host T) (st : Stream T) : Decision (fits h st).
Proof. unfold fits. apply _. Defined.

(** An operation leaves the arrays other than [x], and the size, as they
    are. *)
Definition writes_only (x : array) (st st' : Stream T) : Prop :=
  array_size st' = array_size st ∧ ∀ y, y ≠ x → get y st' = get y st.

Definition writes_nothing (st st' : Stream T) : Prop := st' = st.
End Contract.
End Contract.

(** ** Example states and strings *)
Module Examples.
(** Two elements per array, of type [float]. *)
Definition small : Stream float :=
  {| array_size := 2;
     a := [float_of_Z 1; float_of_Z 2];
     b := [float_of_Z 3; float_of_Z 4];
     c := [float_of_Z 5; float_of_Z 6] |}.

(** Host buffers of two elements. *)
Definition small_host : Host float :=
  {| h_a := [S754_zero false; S754_zero false];
     h_b := [S754_zero false; S754_zero false];
     h_c := [S754_zero false; S754_zero false] |}.

(** One element per array. *)
Definition single : Stream float :=
  {| array_size := 1;
     a := [S754_zero false]; b := [S754_zero false]; c := [S754_zero false] |}.

(** [a = [2^24; 1; 1]] and [b = [1; 1; 1]], of type [float] and of type
    [double]. *)
Definition large_small (fmt : format) : Stream spec_float :=
  {| array_size := 3;
     a := [format_of_Z fmt 16777216; format_of_Z fmt 1; format_of_Z fmt 1];
     b := [format_of_Z fmt 1; format_of_Z fmt 1; format_of_Z fmt 1];
     c := [format_of_Z fmt 0; format_of_Z fmt 0; format_of_Z fmt 0] |}.

(** One element per array, [c = [9]]. *)
Definition nine : Stream float :=
  {| array_size := 1;
     a := [float_of_Z 1]; b := [float_of_Z 1]; c := [float_of_Z 9] |}.

(** The [double] nearest to [0.4]. *)
Definition double_0_4 : double := SFdiv 53 1024 (double_of_Z 2) (double_of_Z 5).

(** A runtime with no device. *)
Definition no_runtime : ThrustStream.Runtime :=
  {| ThrustStream.GetDeviceProperties := λ _, None;
     ThrustStream.SetDevice := λ _, false;
     ThrustStream.DriverGetVersion := None |}.
End Examples.

(** [sub] occurs in [s]. *)
Definition contains (sub s : string) : Prop :=
  ∃ pre post : string, s = (pre +:+ sub +:+ post).

(** [rd] at index [i] does not see a store to [dst] at another index. *)
Definition local_read {T : Type} (dst : array)
    (rd : nat → Stream T → option T) : Prop :=
  ∀ i j w st, i ≠ j →
    rd i (set dst (<[j:=w]> (get dst st)) st) = rd i st.

(** ** Kernels as data: calls in sequence, and element access functions *)
Module Calls.
Inductive kernel := Copy | Mul | Add | Triad | Nstream.

Section Calls.
Context {T : Type} {E : Elem T} {L : Reduction}.
Variable startScalar : number T.

(** The array a kernel stores to, and the arrays it loads from. *)
Definition output (k : kernel) : array :=
  match k with
  | Copy | Add => C
  | Mul => B
  | Triad | Nstream => A
  end.

Definition inputs (k : kernel) : list array :=
  match k with
  | Copy => [A]
  | Mul => [C]
  | Add => [A; B]
  | Triad => [B; C]
  | Nstream => [A; B; C]
  end.

(** One call through the interface. *)
Definition call (bk : Backend.backend) (k : kernel)
  : Stream T → option (Stream T) :=
  match k with
  | Copy => Backend.copy bk
  | Mul => Backend.mul startScalar bk
  | Add => Backend.add bk
  | Triad => Backend.triad startScalar bk
  | Nstream => Backend.nstream startScalar bk
  end.

(** A caller that issues kernels one after the other. *)
Fixpoint run (bk : Backend.backend) (ks : list kernel) (st : Stream T)
  : option (Stream T) :=
  match ks with
  | [] => Some st
  | k :: ks' =>
      match call bk k st with
      | Some st' => run bk ks' st'
      | None => None
      end
  end.

(** The value a kernel computes for index [i]: the body of its lambda (for
    [copy], the element copied), which differs between the backends where
    the scalar takes part. *)
Definition value (bk : Backend.backend) (k : kernel) (i : nat)
    (st : Stream T) : option T :=
  match k with
  | Copy => load A i st
  | Mul => ci ← load C i st; Some (Contract.mul_formula bk startScalar ci)
  | Add => ai ← load A i st; bi ← load B i st; Some (ai + bi)%E
  | Triad =>
      bi ← load B i st; ci ← load C i st;
      Some (Contract.triad_formula bk startScalar bi ci)
  | Nstream =>
      ai ← load A i st; bi ← load B i st; ci ← load C i st;
      Some (Contract.nstream_formula bk startScalar ai bi ci)
  end.

(** The element access function of a kernel at index [i]. *)
Definition access (bk : Backend.backend) (k : kernel) (i : nat)
    (st : Stream T) : option (Stream T) :=
  v ← value bk k i st; store (output k) i v st.

(** A kernel whose element access functions run in the order [order], as
    the execution policy of the parallel algorithm may choose. *)
Definition call_in_order (order : list nat) (bk : Backend.backend)
    (k : kernel) (st : Stream T) : option (Stream T) :=
  for_each order (access bk k) st.
End Calls.
End Calls.

(** ** One value per array *)
Module Gold.
Import Calls.
Section Gold.
Context {T : Type} {E : Elem T}.
Variable startScalar : number T.

(** The state whose arrays hold [n] copies of one value each. *)
Definition uniform (n : nat) (v : T * T * T) : Stream T :=
  {| array_size := n;
     a := replicate n v.1.1;
     b := replicate n v.1.2;
     c := replicate n v.2 |}.

(** The lambda of a kernel on the three values [(va, vb, vc)]. *)
Definition gold_step (bk : Backend.backend) (v : T * T * T) (k : kernel)
  : T * T * T :=
  let '(va, vb, vc) := v in
  match k with
  | Copy => (va, vb, va)
  | Mul => (va, Contract.mul_formula bk startScalar vc, vc)
  | Add => (va, vb, (va + vb)%E)
  | Triad => (Contract.triad_formula bk startScalar vb vc, vb, vc)
  | Nstream => (Contract.nstream_formula bk startScalar va vb vc, vb, vc)
  end.
End Gold.
End Gold.

(** ** Construction and device listing of the Thrust backend *)
Module ThrustSetup.
Import ThrustStream.

(** [THRUST_DEVICE_SYSTEM] as the preprocessor sees it: [0] is reserved for
    an undefined backend, and a value may be none of the known systems. *)
Inductive thrust_system :=
  | Undefined
  | Known (sys : device_system)
  | Unknown (n : Z).

(** The first branch of the [#if] that selects the device functions. *)
Definition device_build (ts : thrust_system) : bool :=
  match ts with
  | Known sys => has_device sys
  | _ => false
  end.

(** The system the device functions are compiled for. *)
Definition functions_system (ts : thrust_system) : device_system :=
  match ts with
  | Known sys => sys
  | _ => CPP
  end.

(** The line the constructor prints about the backend. *)
Definition backend_line (ts : thrust_system) : string :=
  match ts with
  | Undefined => "Thrust backend: undefined"
  | Known CUDA => "Thrust backend: CUDA"
  | Known OMP => "Thrust backend: OMP"
  | Known TBB => "Thrust backend: TBB"
  | Known CPP => "Thrust backend: CPP"
  | Known HIP => "Thrust backend: HIP"
  | Unknown n => "Thrust backend: " +:+ pretty n +:+ "(unknown)"
  end.

(** A line written to [std::cout] or to [std::cerr]. *)
Inductive line := Out (s : string) | Err (s : string).

Section Setup.
Context {T : Type} {E : Elem T}.

(** [ThrustStream(array_size, device)]: three vectors of [array_size]
    value-initialised elements, then the lines printed; [None] when
    [check_error] exits.  [version] is [THRUST_VERSION]. *)
Definition construct (ts : thrust_system) (rt : Runtime) (version : Z)
    (array_size : nat) (device : Z) : option (list line * Stream T) :=
  let st := {| array_size := array_size;
               a := replicate array_size elem_zero;
               b := replicate array_size elem_zero;
               c := replicate array_size elem_zero |} in
  name ← getDeviceName (functions_system ts) rt device;
  driver ← getDeviceDriver (functions_system ts) rt device;
  Some ([Out ("Using CUDA device: " +:+ name);
         Out ("Driver: " +:+ driver);
         Out ("Thrust version: " +:+ pretty version);
         Out (backend_line ts)], st).
End Setup.

(** The loop of [listDevices] over the device numbers. *)
Fixpoint device_lines (sys : device_system) (rt : Runtime) (ids : list nat)
  : option (list line) :=
  match ids with
  | [] => Some []
  | i :: ids' =>
      match getDeviceName sys rt (Z.of_nat i) with
      | Some name =>
          match device_lines sys rt ids' with
          | Some rest =>
              Some (Out (pretty (Z.of_nat i) +:+ ": " +:+ name) :: rest)
          | None => None
          end
      | None => None
      end
  end.

(** [listDevices()]; [count] is what [GetDeviceCount] answers, [None] for
    an error, on which [check_error] exits. *)
Definition listDevices (ts : thrust_system) (rt : Runtime)
    (count : option Z) : option (list line) :=
  if device_build ts then
    n ← count;
    if (n =? 0)%Z then Some [Err "No devices found."]
    else
      names ← device_lines (functions_system ts) rt (seq 0 (Z.to_nat n));
      Some ([Out ""; Out "Devices:"] ++ names ++ [Out ""])
  else Some [Out "0: CPU"].
End ThrustSetup.

(** * Properties *)

(** ** The memory and the loops *)
Section MemoryFacts.
Context {T : Type}.
Implicit Types (st : Stream T) (x y : array) (l d : list T).

Lemma get_set_eq x l st : get x (set x l st) = l.
Proof. by destruct x. Qed.

Lemma get_set_ne x y l st : x ≠ y → get y (set x l st) = get y st.
Proof. by destruct x, y. Qed.

Lemma set_set x l l' st : set x l (set x l' st) = set x l st.
Proof. by destruct x. Qed.

Lemma set_get x st : set x (get x st) st = st.
Proof. by destruct x, st. Qed.

Lemma array_size_set x l st : array_size (set x l st) = array_size st.
Proof. by destruct x. Qed.

Lemma wf_set x l st : wf st → length l = array_size st → wf (set x l st).
Proof. intros (Ha & Hb & Hc) Hl. by destruct x. Qed.

Lemma wf_get x st : wf st → length (get x st) = array_size st.
Proof. intros (Ha & Hb & Hc). by destruct x. Qed.

(** The array under construction: the first [k] elements are new. *)
Lemma insert_take_drop l d k v :
  l !! k = Some v → k < length d →
  <[k:=v]> (take k l ++ drop k d) = take (S k) l ++ drop (S k) d.
Proof.
  intros Hl Hd.
  assert (Hk : k < length l) by (by eapply lookup_lt_Some).
  destruct (lookup_lt_is_Some_2 d k Hd) as [w Hw].
  rewrite insert_app_r_alt by (rewrite length_take; lia).
  rewrite length_take, Nat.min_l, Nat.sub_diag by lia.
  rewrite (drop_S d w k Hw). simpl.
  rewrite (take_S_r l k v Hl), <- app_assoc. done.
Qed.

Lemma lookup_take_drop l d k :
  k ≤ length l → (take k l ++ drop k d) !! k = d !! k.
Proof.
  intros Hk.
  rewrite lookup_app_r by (rewrite length_take; lia).
  rewrite length_take, Nat.min_l, Nat.sub_diag by lia.
  rewrite lookup_drop. f_equal. lia.
Qed.

(** A loop that writes [dst] index by index from values read in the current
    memory computes the list [l], if at each index [k] the value read when
    the first [k] elements are already written is [l !! k]. *)
Lemma for_each_write (dst : array) (rd : nat → Stream T → option T) l st n :
  length l = n → n ≤ length (get dst st) →
  (∀ k v, l !! k = Some v →
     rd k (set dst (take k l ++ drop k (get dst st)) st) = Some v) →
  for_each (seq 0 n) (λ i s, v ← rd i s; store dst i v s) st
  = Some (set dst (l ++ drop n (get dst st)) st).
Proof.
  intros Hl Hn Hrd.
  set (cur := λ k, set dst (take k l ++ drop k (get dst st)) st).
  assert (Hgen : ∀ m k, k + m = n →
    for_each (seq k m) (λ i s, v ← rd i s; store dst i v s) (cur k)
    = Some (cur n)).
  { unfold cur. induction m as [|m IH]; intros k Hk; simpl.
    - replace k with n by lia. done.
    - destruct (lookup_lt_is_Some_2 l k) as [v Hv]; [lia|].
      rewrite (Hrd k v Hv). simpl.
      unfold store. rewrite get_set_eq.
      rewrite decide_True by (rewrite length_app, length_take, length_drop; lia).
      rewrite set_set, insert_take_drop by (done || lia).
      apply (IH (S k)). lia. }
  specialize (Hgen n 0 (Nat.add_0_l n)).
  unfold cur in Hgen. simpl in Hgen. rewrite drop_0, set_get in Hgen.
  rewrite Hgen. by rewrite firstn_all2 by lia.
Qed.
End MemoryFacts.

(** ** The loops of the two backends, on well-formed states *)
Section LoopFacts.
Context {T : Type}.
Implicit Types (st : Stream T) (x y : array) (l h : list T).

(** Reads at index [k] do not see the [k] elements already written. *)
Lemma load_partial x y l k st :
  k ≤ length l →
  load y k (set x (take k l ++ drop k (get x st)) st) = get y st !! k.
Proof.
  intros Hk. unfold load.
  destruct (decide (x = y)) as [->|Hne].
  - rewrite get_set_eq. by apply lookup_take_drop.
  - by rewrite get_set_ne.
Qed.

Lemma for_each_write_wf (dst : array) (rd : nat → Stream T → option T) l st :
  wf st → length l = array_size st →
  (∀ k v, l !! k = Some v →
     rd k (set dst (take k l ++ drop k (get dst st)) st) = Some v) →
  for_each (seq 0 (array_size st)) (λ i s, v ← rd i s; store dst i v s) st
  = Some (set dst l st).
Proof.
  intros Hwf Hl Hrd.
  rewrite (for_each_write dst rd l) by (rewrite ?wf_get; done || lia).
  rewrite drop_ge, app_nil_r by (rewrite wf_get; done || lia). done.
Qed.

(** [std::transform] from index [k] to position [k] is the indexed loop. *)
Lemma std_transform_for_each dst (op : nat → Stream T → option T) m :
  ∀ k st,
    STDIndicesStream.transform (seq k m) dst k op st
    = for_each (seq k m) (λ i s, v ← op i s; store dst i v s) st.
Proof.
  induction m as [|m IH]; intros k st; simpl; [done|].
  destruct (op k st) as [v|]; simpl; [|done].
  destruct (store dst k v st) as [st'|]; [apply IH | done].
Qed.

(** A copy to a host vector succeeds exactly when the vector is long enough,
    and then overwrites its first elements. *)
Lemma copy_to_host_spec x st h :
  copy_to_host (seq 0 (length (get x st))) x st h
  = if decide (length (get x st) ≤ length h)
    then Some (get x st ++ drop (length (get x st)) h)
    else None.
Proof.
  set (src := get x st). set (n := length src).
  assert (Hgen : ∀ m k, k + m = n → k ≤ length h →
    copy_to_host (seq k m) x st (take k src ++ drop k h)
    = if decide (n ≤ length h) then Some (src ++ drop n h) else None).
  { induction m as [|m IH]; intros k Hk Hle; simpl.
    - rewrite decide_True by lia. replace k with n by lia.
      unfold n. by rewrite firstn_all.
    - destruct (lookup_lt_is_Some_2 src k) as [v Hv]; [fold n; lia|].
      unfold load. fold src. rewrite Hv. unfold host_store.
      rewrite length_app, length_take, length_drop.
      destruct (decide (k < length h)) as [Hlt|Hge].
      + rewrite decide_True by lia.
        rewrite insert_take_drop by done. apply IH; lia.
      + rewrite decide_False by lia. by rewrite decide_False by lia. }
  specialize (Hgen n 0 (Nat.add_0_l n) (Nat.le_0_l _)).
  simpl in Hgen. by rewrite drop_0 in Hgen.
Qed.
End LoopFacts.

(** ** Each kernel computes its contract *)
Section KernelFacts.
Context {T : Type} {E : Elem T}.
Variable startScalar : number T.
Implicit Types (st : Stream T) (x y : array) (l : list T) (h : Host T).

Import Contract.

Lemma lookup_map3 (f : T → T → T → T) l1 l2 l3 k v :
  map3 f l1 l2 l3 !! k = Some v ↔
  ∃ u1 u2 u3, v = f u1 u2 u3 ∧
    l1 !! k = Some u1 ∧ l2 !! k = Some u2 ∧ l3 !! k = Some u3.
Proof.
  unfold map3. rewrite lookup_zip_with_Some. split.
  - intros (u1 & [u2 u3] & -> & H1 & H23).
    apply lookup_zip_with_Some in H23 as (? & ? & [= <- <-] & ? & ?).
    by exists u1, u2, u3.
  - intros (u1 & u2 & u3 & -> & H1 & H2 & H3).
    exists u1, (u2, u3). repeat split; [done|].
    apply lookup_zip_with_Some. by exists u2, u3.
Qed.

Lemma length_map3 (f : T → T → T → T) l1 l2 l3 n :
  length l1 = n → length l2 = n → length l3 = n →
  length (map3 f l1 l2 l3) = n.
Proof.
  intros H1 H2 H3. unfold map3.
  rewrite length_zip_with, length_zip. lia.
Qed.

(** The reads of a loop body at index [k], in the memory as it is then. *)
Ltac reads :=
  let k := fresh "k" in let v := fresh "v" in let Hv := fresh "Hv" in
  let Hk := fresh "Hk" in
  intros k v Hv;
  pose proof (Nat.lt_le_incl _ _ (lookup_lt_Some _ _ _ Hv)) as Hk;
  rewrite ?(load_partial _ _ _ _ _ Hk); simpl get.

(** *** STD-indices *)

Lemma std_fill x v st :
  wf st →
  STDIndicesStream.fill x v st = Some (set x (all_equal (array_size st) v) st).
Proof.
  intros Hwf. unfold STDIndicesStream.fill, STDIndicesStream.range.
  apply (for_each_write_wf x (λ _ _, Some v)); [done | apply length_replicate |].
  intros k w Hw. by apply lookup_replicate in Hw as [-> _].
Qed.

Lemma wf_all_equal x v st : wf st → wf (set x (all_equal (array_size st) v) st).
Proof. intros. apply wf_set; [done | apply length_replicate]. Qed.

Lemma std_init_arrays (va vb vc : T) st :
  wf st → STDIndicesStream.init_arrays va vb vc st = Some (init_result va vb vc st).
Proof.
  intros Hwf. unfold STDIndicesStream.init_arrays.
  rewrite std_fill by done. simpl.
  pose proof (wf_all_equal A va st Hwf) as Hwf1.
  rewrite std_fill by done. simpl.
  pose proof (wf_all_equal B vb _ Hwf1) as Hwf2.
  by rewrite std_fill by done.
Qed.

Lemma std_copy st : wf st → STDIndicesStream.copy st = Some (copy_result st).
Proof.
  intros Hwf. unfold STDIndicesStream.copy, STDIndicesStream.range.
  apply (for_each_write_wf C (load A)); [done | by apply (wf_get A) |].
  by reads.
Qed.

Lemma std_mul st :
  wf st →
  STDIndicesStream.mul startScalar st
  = Some (mul_result Backend.STDIndices startScalar st).
Proof.
  intros Hwf. unfold STDIndicesStream.mul, STDIndicesStream.range.
  rewrite std_transform_for_each.
  apply for_each_write_wf; [done | rewrite length_fmap; by apply (wf_get C) |].
  reads. rewrite list_lookup_fmap in Hv.
  destruct (c st !! k) as [ci|]; simplify_eq/=. done.
Qed.

Lemma std_add st : wf st → STDIndicesStream.add st = Some (add_result st).
Proof.
  intros Hwf. unfold STDIndicesStream.add, STDIndicesStream.range.
  rewrite std_transform_for_each.
  destruct Hwf as (Ha & Hb & Hc).
  apply for_each_write_wf; [done | rewrite length_zip_with; lia |].
  reads. apply lookup_zip_with_Some in Hv as (ai & bi & -> & -> & ->). done.
Qed.

Lemma std_triad st :
  wf st →
  STDIndicesStream.triad startScalar st
  = Some (triad_result Backend.STDIndices startScalar st).
Proof.
  intros Hwf. unfold STDIndicesStream.triad, STDIndicesStream.range.
  rewrite std_transform_for_each.
  destruct Hwf as (Ha & Hb & Hc).
  apply for_each_write_wf; [done | rewrite length_zip_with; lia |].
  reads. apply lookup_zip_with_Some in Hv as (bi & ci & -> & -> & ->). done.
Qed.

Lemma std_nstream st :
  wf st →
  STDIndicesStream.nstream startScalar st
  = Some (nstream_result Backend.STDIndices startScalar st).
Proof.
  intros Hwf. unfold STDIndicesStream.nstream, STDIndicesStream.range.
  rewrite std_transform_for_each.
  destruct Hwf as (Ha & Hb & Hc).
  apply for_each_write_wf; [done | by apply length_map3 |].
  reads. apply lookup_map3 in Hv as (ai & bi & ci & -> & -> & -> & ->). done.
Qed.

Lemma std_transform_reduce st :
  wf st →
  ∀ p, Forall (λ i, i < array_size st) (indices p) →
    ∃ v, STDIndicesStream.transform_reduce p st = Some v ∧
         plan_value true (InDouble double_zero) p
           (zip_with elem_mul (a st) (b st)) = Some v.
Proof.
  intros (Ha & Hb & Hc).
  induction p as [|i|wide l IHl r IHr]; intros Hidx; simpl in Hidx |- *.
  - by eexists.
  - rewrite Forall_singleton in Hidx. unfold load; simpl.
    destruct (lookup_lt_is_Some_2 (a st) i) as [ai Hai]; [lia|].
    destruct (lookup_lt_is_Some_2 (b st) i) as [bi Hbi]; [lia|].
    rewrite Hai, Hbi, lookup_zip_with, Hai, Hbi. by eexists.
  - apply Forall_app in Hidx as [Hl Hr].
    destruct (IHl Hl) as (x & -> & ->), (IHr Hr) as (y & -> & ->).
    by eexists.
Qed.

Lemma inits_pos p : indices p = [] → 1 ≤ inits p.
Proof.
  induction p as [|i|wide l IHl r IHr]; simpl; [lia | done |].
  intros Hnil. apply app_eq_nil in Hnil as [Hl Hr].
  specialize (IHl Hl). lia.
Qed.

(** The plan for no element is the initial value. *)
Lemma valid_plan_0 p : valid_plan 0 p → p = Init.
Proof.
  intros [Hperm Hinit]. simpl in Hperm. apply Permutation_nil_r in Hperm.
  destruct p as [|i|wide l r]; [done | done |].
  simpl in *. apply app_eq_nil in Hperm as [Hl Hr].
  pose proof (inits_pos l Hl). pose proof (inits_pos r Hr). lia.
Qed.

Lemma valid_plan_indices n p :
  valid_plan n p → Forall (λ i, i < n) (indices p).
Proof.
  intros [Hperm _]. rewrite Hperm. apply Forall_forall.
  intros i Hi. apply elem_of_seq in Hi. lia.
Qed.

Lemma std_dot {L : Reduction} st :
  wf st →
  ∃ r, STDIndicesStream.dot st = Some (r, st) ∧
       dot_sum_of Backend.STDIndices (zip_with elem_mul (a st) (b st)) r.
Proof.
  intros Hwf. unfold STDIndicesStream.dot.
  pose proof (reduction_plan_valid (array_size st)) as Hvalid.
  destruct (std_transform_reduce st Hwf _ (valid_plan_indices _ _ Hvalid))
    as (v & -> & Hv).
  exists (as_T v). split; [done|].
  exists (reduction_plan (array_size st)), v.
  destruct Hwf as (Ha & Hb & Hc).
  rewrite length_zip_with, Ha, Hb, Nat.min_id. done.
Qed.

Lemma std_read_arrays_fits h st :
  wf st → fits h st →
  STDIndicesStream.read_arrays h st = Some (read_result h st, st).
Proof.
  intros (Ha & Hb & Hc) (Fa & Fb & Fc).
  unfold STDIndicesStream.read_arrays, STDIndicesStream.range, read_result.
  pose proof (copy_to_host_spec A st (h_a h)) as Ea.
  pose proof (copy_to_host_spec B st (h_b h)) as Eb.
  pose proof (copy_to_host_spec C st (h_c h)) as Ec.
  simpl in Ea, Eb, Ec. rewrite Ha in Ea. rewrite Hb in Eb. rewrite Hc in Ec.
  rewrite Ea, Eb, Ec. by rewrite !decide_True by done.
Qed.

Lemma std_read_arrays_short h st :
  wf st → ¬ fits h st → STDIndicesStream.read_arrays h st = None.
Proof.
  intros (Ha & Hb & Hc) Hshort.
  unfold STDIndicesStream.read_arrays, STDIndicesStream.range.
  pose proof (copy_to_host_spec A st (h_a h)) as Ea.
  pose proof (copy_to_host_spec B st (h_b h)) as Eb.
  pose proof (copy_to_host_spec C st (h_c h)) as Ec.
  simpl in Ea, Eb, Ec. rewrite Ha in Ea. rewrite Hb in Eb. rewrite Hc in Ec.
  rewrite Ea, Eb, Ec. unfold fits in Hshort.
  repeat case_decide; simpl; try done. tauto.
Qed.

(** *** Thrust *)

Lemma thrust_positions x st :
  wf st → ThrustStream.positions x st = seq 0 (array_size st).
Proof. intros Hwf. unfold ThrustStream.positions. by rewrite wf_get. Qed.

Lemma thrust_fill x v st :
  wf st →
  ThrustStream.fill x v st = Some (set x (all_equal (array_size st) v) st).
Proof.
  intros Hwf. unfold ThrustStream.fill. rewrite thrust_positions by done.
  apply (for_each_write_wf x (λ _ _, Some v)); [done | apply length_replicate |].
  intros k w Hw. by apply lookup_replicate in Hw as [-> _].
Qed.

Lemma thrust_init_arrays (va vb vc : T) st :
  wf st → ThrustStream.init_arrays va vb vc st = Some (init_result va vb vc st).
Proof.
  intros Hwf. unfold ThrustStream.init_arrays.
  rewrite thrust_fill by done. simpl.
  pose proof (wf_all_equal A va st Hwf) as Hwf1.
  rewrite thrust_fill by done. simpl.
  pose proof (wf_all_equal B vb _ Hwf1) as Hwf2.
  by rewrite thrust_fill by done.
Qed.

Lemma thrust_copy st : wf st → ThrustStream.copy st = Some (copy_result st).
Proof.
  intros Hwf. unfold ThrustStream.copy. rewrite thrust_positions by done.
  apply (for_each_write_wf C (load A)); [done | by apply (wf_get A) |].
  by reads.
Qed.

Lemma thrust_mul st :
  wf st →
  ThrustStream.mul startScalar st
  = Some (mul_result Backend.Thrust startScalar st).
Proof.
  intros Hwf. unfold ThrustStream.mul, ThrustStream.transform.
  rewrite thrust_positions by done.
  apply for_each_write_wf; [done | rewrite length_fmap; by apply (wf_get C) |].
  reads. rewrite list_lookup_fmap in Hv.
  destruct (c st !! k) as [ci|]; simplify_eq/=. done.
Qed.

Lemma thrust_add st : wf st → ThrustStream.add st = Some (add_result st).
Proof.
  intros Hwf. unfold ThrustStream.add, ThrustStream.transform.
  rewrite thrust_positions by done.
  destruct Hwf as (Ha & Hb & Hc).
  apply for_each_write_wf; [done | rewrite length_zip_with; lia |].
  reads. apply lookup_zip_with_Some in Hv as (ai & bi & -> & -> & ->). done.
Qed.

Lemma thrust_triad st :
  wf st →
  ThrustStream.triad startScalar st
  = Some (triad_result Backend.Thrust startScalar st).
Proof.
  intros Hwf. unfold ThrustStream.triad, ThrustStream.transform.
  rewrite thrust_positions by done.
  destruct Hwf as (Ha & Hb & Hc).
  apply for_each_write_wf; [done | rewrite length_zip_with; lia |].
  reads. apply lookup_zip_with_Some in Hv as (bi & ci & -> & -> & ->). done.
Qed.

Lemma thrust_nstream st :
  wf st →
  ThrustStream.nstream startScalar st
  = Some (nstream_result Backend.Thrust startScalar st).
Proof.
  intros Hwf. unfold ThrustStream.nstream, ThrustStream.transform.
  rewrite thrust_positions by done.
  destruct Hwf as (Ha & Hb & Hc).
  apply for_each_write_wf; [done | by apply length_map3 |].
  reads. apply lookup_map3 in Hv as (ai & bi & ci & -> & -> & -> & ->). done.
Qed.

Lemma thrust_inner_product st init :
  wf st →
  ∀ p, Forall (λ i, i < array_size st) (indices p) →
    ∃ v, ThrustStream.inner_product p init st = Some (as_T v) ∧
         plan_value false (InT init) p
           (zip_with elem_mul (a st) (b st)) = Some v.
Proof.
  intros (Ha & Hb & Hc).
  induction p as [|i|wide l IHl r IHr]; intros Hidx; simpl in Hidx |- *.
  - by exists (InT init).
  - rewrite Forall_singleton in Hidx. unfold load; simpl.
    destruct (lookup_lt_is_Some_2 (a st) i) as [ai Hai]; [lia|].
    destruct (lookup_lt_is_Some_2 (b st) i) as [bi Hbi]; [lia|].
    rewrite Hai, Hbi, lookup_zip_with, Hai, Hbi. by exists (InT (ai * bi)%E).
  - apply Forall_app in Hidx as [Hl Hr].
    destruct (IHl Hl) as (x & -> & ->), (IHr Hr) as (y & -> & ->).
    by exists (plan_add false x y).
Qed.

Lemma thrust_dot {L : Reduction} st :
  wf st →
  ∃ r, ThrustStream.dot st = Some (r, st) ∧
       dot_sum_of Backend.Thrust (zip_with elem_mul (a st) (b st)) r.
Proof.
  intros Hwf. unfold ThrustStream.dot.
  pose proof (wf_get A st Hwf) as Hlen. simpl in Hlen. rewrite Hlen.
  pose proof (reduction_plan_valid (array_size st)) as Hvalid.
  destruct (thrust_inner_product st elem_zero Hwf _
              (valid_plan_indices _ _ Hvalid)) as (v & -> & Hv).
  exists (as_T v). split; [done|].
  exists (reduction_plan (array_size st)), v.
  destruct Hwf as (Ha & Hb & Hc).
  rewrite length_zip_with, Ha, Hb, Nat.min_id. done.
Qed.

Lemma thrust_read_arrays_fits h st :
  wf st → fits h st →
  ThrustStream.read_arrays h st = Some (read_result h st, st).
Proof.
  intros (Ha & Hb & Hc) (Fa & Fb & Fc).
  unfold ThrustStream.read_arrays, ThrustStream.positions, read_result.
  rewrite !copy_to_host_spec. simpl. rewrite Ha, Hb, Hc.
  by rewrite !decide_True by done.
Qed.

Lemma thrust_read_arrays_short h st :
  wf st → ¬ fits h st → ThrustStream.read_arrays h st = None.
Proof.
  intros (Ha & Hb & Hc) Hshort.
  unfold ThrustStream.read_arrays, ThrustStream.positions.
  rewrite !copy_to_host_spec. simpl. rewrite Ha, Hb, Hc.
  unfold fits in Hshort.
  repeat case_decide; simpl; try done. tauto.
Qed.
End KernelFacts.

(** ** Exact floating-point sums of integers *)
Section Shifts.
Open Scope Z_scope.

Lemma digits2_pos_size m : digits2_pos m = Pos.size m.
Proof. induction m; simpl; congruence. Qed.

Lemma digits2_pos_log2 m : Z.pos (digits2_pos m) = Z.log2 (Z.pos m) + 1.
Proof.
  rewrite digits2_pos_size. destruct m; simpl; try lia.
Qed.

Lemma iter_pos_nat {X} (f : X → X) p x :
  SpecFloat.iter_pos f p x = Nat.iter (Pos.to_nat p) f x.
Proof.
  revert x. induction p as [p IH|p IH|]; intros x.
  - change (SpecFloat.iter_pos f p~1 x)
      with (SpecFloat.iter_pos f p (SpecFloat.iter_pos f p (f x))).
    rewrite !IH, Pos2Nat.inj_xI, Nat.iter_succ_r.
    replace (2 * Pos.to_nat p)%nat with (Pos.to_nat p + Pos.to_nat p)%nat by lia.
    by rewrite Nat.iter_add.
  - change (SpecFloat.iter_pos f p~0 x)
      with (SpecFloat.iter_pos f p (SpecFloat.iter_pos f p x)).
    rewrite !IH, Pos2Nat.inj_xO.
    replace (2 * Pos.to_nat p)%nat with (Pos.to_nat p + Pos.to_nat p)%nat by lia.
    by rewrite Nat.iter_add.
  - done.
Qed.

Lemma shr_1_exact m :
  0 < m → shr_1 {| shr_m := 2 * m; shr_r := false; shr_s := false |}
  = {| shr_m := m; shr_r := false; shr_s := false |}.
Proof. destruct m; try lia. intros _. reflexivity. Qed.

Lemma shr_nat_exact n : ∀ m,
  0 < m →
  Nat.iter n shr_1 {| shr_m := m * 2 ^ Z.of_nat n; shr_r := false; shr_s := false |}
  = {| shr_m := m; shr_r := false; shr_s := false |}.
Proof.
  induction n as [|n IH]; intros m Hm.
  - simpl. by rewrite Z.mul_1_r.
  - rewrite Nat.iter_succ_r.
    replace (m * 2 ^ Z.of_nat (S n)) with (2 * (m * 2 ^ Z.of_nat n))
      by (rewrite Nat2Z.inj_succ, Z.pow_succ_r; lia).
    rewrite shr_1_exact by (apply Z.mul_pos_pos; [done | apply Z.pow_pos_nonneg; lia]).
    by apply IH.
Qed.

Lemma shr_exact m e n :
  0 < m → 0 ≤ n →
  shr {| shr_m := m * 2 ^ n; shr_r := false; shr_s := false |} e n
  = ({| shr_m := m; shr_r := false; shr_s := false |}, e + n).
Proof.
  intros Hm Hn. unfold shr. destruct n as [|p|p]; try lia.
  - by rewrite Z.mul_1_r, Z.add_0_r.
  - rewrite iter_pos_nat. f_equal.
    rewrite <- (positive_nat_Z p). by apply shr_nat_exact.
Qed.

Lemma shl_align_fst m e e' :
  e' ≤ e → Z.pos (fst (shl_align m e e')) = Z.pos m * 2 ^ (e - e').
Proof.
  intros He. unfold shl_align.
  destruct (e' - e) as [|d|d] eqn:Hd; simpl; try lia.
  - replace (e - e') with 0 by lia. lia.
  - replace (e - e') with (Z.pos d) by lia.
    rewrite (Pos.iter_swap_gen _ _ Z.pos xO (Z.mul 2)) by done.
    change (Pos.iter (Z.mul 2) (Z.pos m) d) with (Z.shiftl (Z.pos m) (Z.pos d)).
    by rewrite Z.shiftl_mul_pow2 by lia.
Qed.

Lemma shl_align_snd m e e' : e' ≤ e → snd (shl_align m e e') = e'.
Proof.
  intros He. unfold shl_align.
  destruct (e' - e) as [|d|d] eqn:Hd; simpl; lia.
Qed.
End Shifts.

Section Exact.
Open Scope Z_scope.

Variables prec emax : Z.
Hypothesis Hprec : 0 < prec.
Hypothesis Hemax : prec < emax.

#[local] Abbreviation normal := (normal prec).
#[local] Abbreviation is_int := (is_int prec).

Lemma normal_digits m : normal m → Z.pos (digits2_pos m) = prec.
Proof.
  intros [Hlo Hhi]. rewrite digits2_pos_log2.
  assert (Z.log2 (Z.pos m) = prec - 1); [|lia].
  apply Z.log2_unique; [lia|].
  replace (Z.succ (prec - 1)) with prec by lia. done.
Qed.

Lemma digits_shift m n :
  normal m → 0 ≤ n → Zdigits2 (Z.pos m * 2 ^ n) = prec + n.
Proof.
  intros Hm Hn.
  assert (0 < Z.pos m * 2 ^ n) by (apply Z.mul_pos_pos; [lia | apply Z.pow_pos_nonneg; lia]).
  destruct (Z.pos m * 2 ^ n) as [|q|q] eqn:Hq; try lia.
  simpl. rewrite digits2_pos_log2, <- Hq.
  rewrite Z.log2_mul_pow2 by lia.
  pose proof (normal_digits m Hm) as Hd. rewrite digits2_pos_log2 in Hd. lia.
Qed.

(** Rounding is exact on a number that already has a normal mantissa. *)
Lemma binary_round_aux_exact s m e n :
  normal m → 0 ≤ n → 3 - emax - prec ≤ e + n ≤ emax - prec →
  binary_round_aux prec emax s (Z.pos m * 2 ^ n) e loc_Exact
  = S754_finite s m (e + n).
Proof.
  intros Hm Hn He. unfold binary_round_aux, shr_fexp.
  rewrite digits_shift by done. simpl shr_record_of_loc.
  replace (fexp prec emax (prec + n + e) - e) with n
    by (unfold fexp, emin; lia).
  rewrite shr_exact by lia. simpl.
  replace (fexp prec emax (Z.pos (digits2_pos m) + (e + n)) - (e + n)) with 0
    by (rewrite normal_digits by done; unfold fexp, emin; lia).
  simpl. by rewrite Zle_imp_le_bool by lia.
Qed.

Lemma binary_round_exact s q m e n :
  normal m → 0 ≤ n → 3 - emax - prec ≤ e + n ≤ emax - prec →
  Z.pos q = Z.pos m * 2 ^ n →
  binary_round prec emax s q e = S754_finite s m (e + n).
Proof.
  intros Hm Hn He Hq. unfold binary_round.
  pose proof (digits_shift m n Hm Hn) as Hd. rewrite <- Hq in Hd.
  simpl in Hd. rewrite Hd.
  replace (fexp prec emax (prec + n + e)) with (e + n)
    by (unfold fexp, emin; lia).
  unfold shl_align.
  destruct (e + n - e) as [|d|d] eqn:E; try lia;
    rewrite Hq; by apply binary_round_aux_exact.
Qed.

(** The sum of two positive numbers is exact when it has a normal
    mantissa at an exponent not below theirs. *)
Lemma SFadd_exact mx ex my ey m e :
  normal m → Z.min ex ey ≤ e → 3 - emax - prec ≤ e ≤ emax - prec →
  Z.pos mx * 2 ^ (ex - Z.min ex ey) + Z.pos my * 2 ^ (ey - Z.min ex ey)
  = Z.pos m * 2 ^ (e - Z.min ex ey) →
  SFadd prec emax (S754_finite false mx ex) (S754_finite false my ey)
  = S754_finite false m e.
Proof.
  intros Hm Hez He Hsum. unfold SFadd. simpl cond_Zopp.
  rewrite !shl_align_fst, Hsum by lia.
  assert (Hpos : 0 < Z.pos m * 2 ^ (e - Z.min ex ey))
    by (apply Z.mul_pos_pos; [lia | apply Z.pow_pos_nonneg; lia]).
  destruct (Z.pos m * 2 ^ (e - Z.min ex ey)) as [|q|q] eqn:Hq; try lia.
  simpl binary_normalize.
  rewrite (binary_round_exact false q m (Z.min ex ey) (e - Z.min ex ey))
    by (done || lia).
  f_equal. lia.
Qed.

Lemma normal_log2 m k :
  normal m → 0 ≤ k → Z.log2 (Z.pos m * 2 ^ k) = k + (prec - 1).
Proof.
  intros Hm Hk. rewrite Z.log2_mul_pow2 by lia.
  pose proof (normal_digits m Hm) as Hd. rewrite digits2_pos_log2 in Hd. lia.
Qed.

Lemma is_int_unique x y X : is_int x X → is_int y X → x = y.
Proof.
  intros (m & e & -> & Hm & He & HX) (m' & e' & -> & Hm' & He' & HX').
  assert (e = e').
  { pose proof (normal_log2 m (e + prec) Hm ltac:(lia)) as L.
    pose proof (normal_log2 m' (e' + prec) Hm' ltac:(lia)) as L'.
    rewrite HX in L. rewrite HX' in L'. lia. }
  subst e'. rewrite <- HX' in HX.
  apply Z.mul_cancel_r in HX; [|apply Z.pow_nonzero; lia].
  congruence.
Qed.

Lemma is_int_SFtoZ x X : is_int x X → SFtoZ x = Some X.
Proof.
  intros (m & e & -> & Hm & He & HX). unfold SFtoZ.
  assert (H2 : 0 < 2 ^ prec) by (apply Z.pow_pos_nonneg; lia).
  destruct (Z.leb_spec 0 e) as [Hle|Hlt].
  - simpl. f_equal. rewrite Z.pow_add_r, Z.mul_assoc in HX by lia.
    by apply Z.mul_cancel_r in HX; [|lia].
  - assert (Z.pos m = X * 2 ^ (- e)) as ->.
    { apply (Z.mul_cancel_r _ _ (2 ^ (e + prec))); [apply Z.pow_nonzero; lia|].
      rewrite HX, <- Z.mul_assoc, <- Z.pow_add_r by lia. f_equal. f_equal. lia. }
    assert (0 < 2 ^ (- e)) by (apply Z.pow_pos_nonneg; lia).
    rewrite Z.mod_mul by lia. simpl. by rewrite Z.div_mul by lia.
Qed.

(** Every integer from [1] to [2 ^ prec] has a normal mantissa. *)
Lemma int_normal X :
  1 ≤ X ≤ 2 ^ prec →
  ∃ m e, normal m ∧ - prec < e ≤ 1 ∧ Z.pos m * 2 ^ (e + prec) = X * 2 ^ prec.
Proof.
  intros [Hlo Hhi].
  assert (Hp1 : 0 < 2 ^ (prec - 1)) by (apply Z.pow_pos_nonneg; lia).
  assert (Hpp : 2 ^ prec = 2 * 2 ^ (prec - 1)).
  { rewrite <- Z.pow_succ_r by lia. f_equal. lia. }
  destruct (decide (X = 2 ^ prec)) as [->|Hne].
  - exists (Z.to_pos (2 ^ (prec - 1))), 1.
    unfold normal. rewrite !Z2Pos.id by done. repeat split; try lia.
    rewrite <- Z.pow_add_r, <- Z.pow_add_r by lia. f_equal. lia.
  - destruct (Z.log2_spec X ltac:(lia)) as [Hl Hu].
    pose proof (Z.log2_nonneg X) as Hnn.
    set (l := Z.log2 X) in *.
    assert (Hlt : l < prec).
    { apply (Z.pow_lt_mono_r_iff 2); lia. }
    assert (Hs : 0 < 2 ^ (prec - 1 - l)) by (apply Z.pow_pos_nonneg; lia).
    exists (Z.to_pos (X * 2 ^ (prec - 1 - l))), (l + 1 - prec).
    unfold normal. rewrite !Z2Pos.id by lia. repeat split; try lia.
    + replace (prec - 1) with (l + (prec - 1 - l)) at 1 by lia.
      rewrite Z.pow_add_r by lia. apply Z.mul_le_mono_nonneg_r; lia.
    + replace prec with (Z.succ l + (prec - 1 - l)) at 2 by lia.
      rewrite Z.pow_add_r by lia.
      by apply (proj1 (Z.mul_lt_mono_pos_r _ _ _ Hs)).
    + rewrite <- Z.mul_assoc, <- Z.pow_add_r by lia. f_equal. f_equal. lia.
Qed.

(** Addition of positive integers is exact up to [2 ^ prec]. *)
Lemma SFadd_int x y X Y :
  is_int x X → is_int y Y → 1 ≤ X → 1 ≤ Y → X + Y ≤ 2 ^ prec →
  is_int (SFadd prec emax x y) (X + Y).
Proof.
  intros (mx & ex & -> & Hmx & Hex & HX) (my & ey & -> & Hmy & Hey & HY).
  intros HX1 HY1 Hsum.
  destruct (int_normal (X + Y) ltac:(lia)) as (m & e & Hm & He & HS).
  assert (H2 : 0 < 2 ^ prec) by (apply Z.pow_pos_nonneg; lia).
  assert (Hexe : ex ≤ e).
  { pose proof (normal_log2 mx (ex + prec) Hmx ltac:(lia)) as L.
    pose proof (normal_log2 m (e + prec) Hm ltac:(lia)) as L'.
    rewrite HX in L. rewrite HS in L'.
    assert (Z.log2 (X * 2 ^ prec) ≤ Z.log2 ((X + Y) * 2 ^ prec)); [|lia].
    apply Z.log2_le_mono. apply Z.mul_le_mono_nonneg_r; lia. }
  set (ez := Z.min ex ey).
  assert (Hz : 0 < 2 ^ (ez + prec)) by (apply Z.pow_pos_nonneg; lia).
  rewrite (SFadd_exact mx ex my ey m e); [by exists m, e | done | lia | lia |].
  fold ez.
  apply (Z.mul_cancel_r _ _ (2 ^ (ez + prec))); [lia|].
  rewrite Z.mul_add_distr_r, <- !Z.mul_assoc, <- !Z.pow_add_r by lia.
  replace (ex - ez + (ez + prec)) with (ex + prec) by lia.
  replace (ey - ez + (ez + prec)) with (ey + prec) by lia.
  replace (e - ez + (ez + prec)) with (e + prec) by lia.
  rewrite HX, HY, HS. lia.
Qed.

(** One step of the [nstream] recurrence on integers: [(v + 1) + 2 * 1]. *)
Lemma nstream_step_int one two v X :
  is_int one 1 → is_int two 2 → SFmul prec emax two one = two →
  is_int v X → 1 ≤ X → X + 3 ≤ 2 ^ prec →
  is_int (SFadd prec emax (SFadd prec emax v one) (SFmul prec emax two one))
    (X + 3).
Proof.
  intros Hone Htwo Hmul Hv HX Hle. rewrite Hmul.
  replace (X + 3) with (X + 1 + 2) by lia.
  apply SFadd_int; [apply SFadd_int | ..]; (done || lia).
Qed.
End Exact.

(** ** Conversions between [float] and [double] *)
Section Conversions.
Open Scope Z_scope.

(** The conversion of an integer of at most 24 bits from [double] to
    [float] is exact. *)
Lemma float_of_double_int x X :
  is_int 53 x X → 1 ≤ X ≤ 2 ^ 24 → is_int 24 (float_of_double x) X.
Proof.
  intros (m & e & -> & Hm & He & HX) HXr.
  destruct (int_normal 24 ltac:(lia) X HXr) as (m' & e' & Hm' & He' & HX').
  assert (Hexp : e' = e + 29).
  { pose proof (normal_log2 53 ltac:(lia) m (e + 53) Hm ltac:(lia)) as L.
    pose proof (normal_log2 24 ltac:(lia) m' (e' + 24) Hm' ltac:(lia)) as L'.
    rewrite HX, Z.log2_mul_pow2 in L by lia.
    rewrite HX', Z.log2_mul_pow2 in L' by lia. lia. }
  subst e'.
  assert (Hp : 0 < 2 ^ (e + 53)) by (apply Z.pow_pos_nonneg; lia).
  assert (Hmant : Z.pos m = Z.pos m' * 2 ^ 29).
  { apply (Z.mul_cancel_r _ _ (2 ^ (e + 53))); [lia|].
    rewrite HX. pose proof HX' as HX''.
    replace (e + 29 + 24) with (e + 53) in HX'' by lia.
    change (2 ^ 53) with (2 ^ 24 * 2 ^ 29).
    rewrite Z.mul_assoc, <- HX''. ring. }
  unfold float_of_double.
  rewrite (binary_round_exact 24 128 ltac:(lia) false m m' e 29)
    by (done || lia).
  exists m', (e + 29). split; [done|]. split; [done|]. split; [lia | done].
Qed.
(** The conversion of an integer from [float] to [double] is exact. *)
Lemma double_of_float_int x X : is_int 24 x X → is_int 53 (double_of_float x) X.
Proof.
  intros (m & e & -> & Hm & He & HX).
  unfold double_of_float, binary_round.
  rewrite (normal_digits 24 ltac:(lia) m Hm).
  replace (fexp 53 1024 (24 + e)) with (e - 29) by (unfold fexp, emin; lia).
  pose proof (shl_align_fst m e (e - 29) ltac:(lia)) as Hfst.
  pose proof (shl_align_snd m e (e - 29) ltac:(lia)) as Hsnd.
  destruct (shl_align m e (e - 29)) as [mz ez]. simpl in Hfst, Hsnd. subst ez.
  replace (e - (e - 29)) with 29 in Hfst by lia.
  assert (Hmz : normal 53 mz).
  { unfold normal in *. rewrite Hfst.
    change (2 ^ (53 - 1)) with (2 ^ (24 - 1) * 2 ^ 29).
    change (2 ^ 53) with (2 ^ 24 * 2 ^ 29). lia. }
  pose proof (binary_round_aux_exact 53 1024 ltac:(lia) false mz (e - 29) 0
                Hmz ltac:(lia) ltac:(lia)) as Hround.
  rewrite Z.pow_0_r, Z.mul_1_r, Z.add_0_r in Hround. rewrite Hround.
  exists mz, (e - 29). split; [done|]. split; [done|]. split; [lia|].
  rewrite Hfst. replace (e - 29 + 53) with (e + 24) by lia.
  change (2 ^ 53) with (2 ^ 24 * 2 ^ 29).
  rewrite Z.mul_assoc, <- HX. ring.
Qed.
End Conversions.

(** ** [float] and [double] *)
Section Formats.
Import Contract.

Lemma format_prec_emax fmt : (0 < format_prec fmt < format_emax fmt)%Z.
Proof. destruct fmt; simpl; lia. Qed.

Lemma format_add fmt :
  @elem_add _ (format_Elem fmt) = SFadd (format_prec fmt) (format_emax fmt).
Proof. by destruct fmt. Qed.

Lemma format_mul fmt :
  @elem_mul _ (format_Elem fmt) = SFmul (format_prec fmt) (format_emax fmt).
Proof. by destruct fmt. Qed.

Lemma format_one fmt : is_int (format_prec fmt) (format_of_Z fmt 1) 1.
Proof.
  destruct fmt.
  - exists 8388608%positive, (-23)%Z. by vm_compute.
  - exists 4503599627370496%positive, (-52)%Z. by vm_compute.
Qed.

Lemma format_two fmt : is_int (format_prec fmt) (format_of_Z fmt 2) 2.
Proof.
  destruct fmt.
  - exists 8388608%positive, (-22)%Z. by vm_compute.
  - exists 4503599627370496%positive, (-51)%Z. by vm_compute.
Qed.

Lemma format_two_one fmt :
  SFmul (format_prec fmt) (format_emax fmt)
    (format_of_Z fmt 2) (format_of_Z fmt 1) = format_of_Z fmt 2.
Proof. destruct fmt; by vm_compute. Qed.

(** The scalar 2 converts to the element type exactly. *)
Lemma format_scalar_two fmt wide :
  as_T (E:=format_Elem fmt) (format_scalar fmt wide 2) = format_of_Z fmt 2.
Proof. destruct fmt, wide; by vm_compute. Qed.

(** One step of the recurrence as each backend computes it, with the
    scalar 2 of either type. *)
Lemma nstream_formula_int fmt bk wide v X :
  is_int (format_prec fmt) v X → (1 ≤ X)%Z →
  (X + 3 ≤ 2 ^ format_prec fmt)%Z →
  is_int (format_prec fmt)
    (nstream_formula (E:=format_Elem fmt) bk (format_scalar fmt wide 2)
       v (format_of_Z fmt 1) (format_of_Z fmt 1))
    (X + 3).
Proof.
  intros Hv HX Hle. pose proof (format_prec_emax fmt) as [Hp He].
  assert (Hnarrow : is_int (format_prec fmt)
    (@elem_add _ (format_Elem fmt)
       (@elem_add _ (format_Elem fmt) v (format_of_Z fmt 1))
       (@elem_mul _ (format_Elem fmt) (format_of_Z fmt 2) (format_of_Z fmt 1)))
    (X + 3)).
  { rewrite format_add, format_mul.
    apply nstream_step_int;
      auto using format_one, format_two, format_two_one; lia. }
  destruct bk; unfold nstream_formula.
  - destruct wide; [|exact Hnarrow].
    destruct fmt; [|exact Hnarrow].
    change (is_int 24
      (float_of_double
         (double_add (double_of_float (float_add v (float_of_Z 1)))
            (double_mul (double_of_Z 2) (double_of_float (float_of_Z 1)))))
      (X + 3)).
    simpl in Hle.
    replace (double_mul (double_of_Z 2) (double_of_float (float_of_Z 1)))
      with (double_of_Z 2) by (by vm_compute).
    apply float_of_double_int; [|lia].
    replace (X + 3)%Z with (X + 1 + 2)%Z by lia.
    apply (SFadd_int 53 1024); try lia.
    + apply double_of_float_int.
      apply (SFadd_int 24 128); try lia; [done | apply (format_one Float)].
    + apply (format_two Double).
  - rewrite format_scalar_two. exact Hnarrow.
Qed.

(** The closed form of the recurrence, as long as it fits the mantissa. *)
Lemma nstream_value_int fmt bk wide (R : N) :
  (1 + 3 * Z.of_N R ≤ 2 ^ format_prec fmt)%Z →
  is_int (format_prec fmt)
    (nstream_value (E:=format_Elem fmt) bk (format_scalar fmt wide 2)
       (format_of_Z fmt 1) (format_of_Z fmt 1) (format_of_Z fmt 1) R)
    (1 + 3 * Z.of_N R).
Proof.
  unfold nstream_value.
  induction R as [|R IH] using N.peano_ind; intros Hle.
  - apply format_one.
  - rewrite N.iter_succ.
    replace (1 + 3 * Z.of_N (N.succ R))%Z with (1 + 3 * Z.of_N R + 3)%Z by lia.
    apply nstream_formula_int; [apply IH; lia | lia | lia].
Qed.

(** The last exact value of the recurrence in [float], and the next one.
    The number of calls is a variable here, so that nothing is computed by
    running the five million calls. *)
Lemma float_value_at bk wide (R : N) :
  Z.of_N R = 5592405%Z →
  nstream_value (E:=float_Elem) bk (format_scalar Float wide 2)
    (float_of_Z 1) (float_of_Z 1) (float_of_Z 1) R
  = S754_finite false 8388608 1.
Proof.
  intros HR.
  apply (is_int_unique 24 ltac:(lia) _ _ (1 + 3 * Z.of_N R)%Z).
  - apply (nstream_value_int Float bk wide R). rewrite HR. by vm_compute.
  - rewrite HR. exists 8388608%positive, 1%Z. by vm_compute.
Qed.

Lemma float_value_past bk wide (R : N) :
  Z.of_N R = 5592405%Z →
  nstream_value (E:=float_Elem) bk (format_scalar Float wide 2)
    (float_of_Z 1) (float_of_Z 1) (float_of_Z 1) (N.succ R)
  = S754_finite false 8388609 1.
Proof.
  intros HR. unfold nstream_value. rewrite N.iter_succ.
  fold (nstream_value (E:=float_Elem) bk (format_scalar Float wide 2)
          (float_of_Z 1) (float_of_Z 1) (float_of_Z 1) R).
  rewrite (float_value_at bk wide R HR). destruct bk, wide; by vm_compute.
Qed.

Lemma float_value_past_limit bk wide :
  nstream_value (E:=float_Elem) bk (format_scalar Float wide 2)
    (float_of_Z 1) (float_of_Z 1) (float_of_Z 1) 5592406
  = S754_finite false 8388609 1.
Proof. exact (float_value_past bk wide 5592405 eq_refl). Qed.
End Formats.

(** ** The kernels behind the interface *)
Section BackendFacts.
Context {T : Type} {E : Elem T} {L : Reduction}.
Variable startScalar : number T.
Implicit Types (st : Stream T) (bk : Backend.backend) (h : Host T) (R : N).

Import Contract.

Lemma backend_init_arrays bk (va vb vc : T) st :
  wf st → Backend.init_arrays bk va vb vc st = Some (init_result va vb vc st).
Proof. destruct bk; [apply std_init_arrays | apply thrust_init_arrays]. Qed.

Lemma backend_copy bk st : wf st → Backend.copy bk st = Some (copy_result st).
Proof. destruct bk; [apply std_copy | apply thrust_copy]. Qed.

Lemma backend_add bk st : wf st → Backend.add bk st = Some (add_result st).
Proof. destruct bk; [apply std_add | apply thrust_add]. Qed.

Lemma backend_mul bk st :
  wf st →
  Backend.mul startScalar bk st = Some (mul_result bk startScalar st).
Proof. destruct bk; [apply std_mul | apply thrust_mul]. Qed.

Lemma backend_triad bk st :
  wf st →
  Backend.triad startScalar bk st = Some (triad_result bk startScalar st).
Proof. destruct bk; [apply std_triad | apply thrust_triad]. Qed.

Lemma backend_nstream bk st :
  wf st →
  Backend.nstream startScalar bk st = Some (nstream_result bk startScalar st).
Proof. destruct bk; [apply std_nstream | apply thrust_nstream]. Qed.

Lemma backend_dot bk st :
  wf st →
  ∃ r, Backend.dot bk st = Some (r, st) ∧
       dot_sum_of bk (zip_with elem_mul (a st) (b st)) r.
Proof. intros Hwf. destruct bk; [by apply std_dot | by apply thrust_dot]. Qed.

Lemma backend_read_arrays bk h st :
  wf st →
  Backend.read_arrays bk h st
  = if decide (fits h st) then Some (read_result h st, st) else None.
Proof.
  intros Hwf. case_decide; destruct bk; simpl;
    auto using std_read_arrays_fits, thrust_read_arrays_fits,
               std_read_arrays_short, thrust_read_arrays_short.
Qed.

Lemma wf_init_result (va vb vc : T) st : wf st → wf (init_result va vb vc st).
Proof.
  intros _. unfold init_result, wf, all_equal; simpl.
  by rewrite !length_replicate.
Qed.

Lemma wf_copy_result st : wf st → wf (copy_result st).
Proof. intros (Ha & Hb & Hc). unfold copy_result, wf; simpl. lia. Qed.

Lemma wf_add_result st : wf st → wf (add_result st).
Proof.
  intros (Ha & Hb & Hc). unfold add_result, wf; simpl.
  rewrite length_zip_with. lia.
Qed.

Lemma wf_mul_result bk st : wf st → wf (mul_result bk startScalar st).
Proof.
  intros (Ha & Hb & Hc). unfold mul_result, wf; simpl.
  rewrite length_fmap. lia.
Qed.

Lemma wf_triad_result bk st : wf st → wf (triad_result bk startScalar st).
Proof.
  intros (Ha & Hb & Hc). unfold triad_result, wf; simpl.
  rewrite length_zip_with. lia.
Qed.

Lemma wf_nstream_result bk st : wf st → wf (nstream_result bk startScalar st).
Proof.
  intros (Ha & Hb & Hc). unfold nstream_result, wf; simpl.
  rewrite (length_map3 _ _ _ _ (array_size st)) by done. lia.
Qed.

Lemma repeat_kernel_succ R (kernel : Stream T → option (Stream T)) st :
  repeat_kernel (N.succ R) kernel st = repeat_kernel R kernel st ≫= kernel.
Proof. unfold repeat_kernel. by rewrite N.iter_succ. Qed.

Lemma repeat_kernel_step R (kernel : Stream T → option (Stream T)) st st' :
  repeat_kernel R kernel st = Some st' →
  repeat_kernel (N.succ R) kernel st = kernel st'.
Proof. intros HR. by rewrite repeat_kernel_succ, HR. Qed.

(** [nstream] on arrays of equal elements. *)
Lemma nstream_result_all_equal bk (v y z : T) st :
  a st = all_equal (array_size st) v →
  b st = all_equal (array_size st) y →
  c st = all_equal (array_size st) z →
  nstream_result bk startScalar st
  = set A (all_equal (array_size st) (nstream_formula bk startScalar v y z)) st.
Proof.
  intros Ha Hb Hc. unfold nstream_result, map3, all_equal.
  by rewrite Ha, Hb, Hc, !zip_with_replicate.
Qed.

Lemma nstream_repeat bk (va vb vc : T) R st :
  wf st →
  repeat_kernel R (Backend.nstream startScalar bk) (init_result va vb vc st)
  = Some (set A (all_equal (array_size st)
                   (nstream_value bk startScalar va vb vc R))
            (init_result va vb vc st)).
Proof.
  intros Hwf. induction R as [|R IH] using N.peano_ind.
  - done.
  - rewrite (repeat_kernel_step _ _ _ _ IH).
    rewrite backend_nstream
      by (apply wf_set; [by apply wf_init_result | apply length_replicate]).
    rewrite (nstream_result_all_equal bk
               (nstream_value bk startScalar va vb vc R) vb vc) by done.
    rewrite (set_set A). unfold nstream_value. by rewrite N.iter_succ.
Qed.

(** [triad] does not read [a]: a second call changes nothing. *)
Lemma triad_result_twice bk st :
  triad_result bk startScalar (triad_result bk startScalar st)
  = triad_result bk startScalar st.
Proof. done. Qed.

Lemma triad_repeat bk R st :
  wf st →
  repeat_kernel (N.succ R) (Backend.triad startScalar bk) st
  = Some (triad_result bk startScalar st).
Proof.
  intros Hwf. induction R as [|R IH] using N.peano_ind.
  - unfold repeat_kernel. simpl. by apply backend_triad.
  - rewrite (repeat_kernel_step _ _ _ _ IH).
    rewrite backend_triad by (by apply wf_triad_result).
    by rewrite triad_result_twice.
Qed.
End BackendFacts.

(** ** Runs on small states *)
Section Runs.
Import Examples.

Example std_nstream_small :
  STDIndicesStream.nstream (E:=float_Elem) (InDouble (double_of_Z 2)) small
  = Some (set A [float_of_Z 14; float_of_Z 18] small).
Proof. by vm_compute. Qed.

Example thrust_nstream_small :
  ThrustStream.nstream (E:=float_Elem) (InDouble (double_of_Z 2)) small
  = Some (set A [float_of_Z 14; float_of_Z 18] small).
Proof. by vm_compute. Qed.

Example thrust_mul_small :
  ThrustStream.mul (E:=float_Elem) (InT (float_of_Z 2)) small
  = Some (set B [float_of_Z 10; float_of_Z 12] small).
Proof. by vm_compute. Qed.

Example std_add_small :
  STDIndicesStream.add (E:=float_Elem) small
  = Some (set C [float_of_Z 4; float_of_Z 6] small).
Proof. by vm_compute. Qed.

(** With a [double] scalar [0.4] and [c[i] = 9.0f], the STD-indices [mul]
    rounds the [double] product once, and the Thrust [mul] rounds the scalar
    to [float] before it multiplies. *)
Example mul_double_scalar :
  double_0_4 = S754_finite false 7205759403792794 (-54) ∧
  b <$> STDIndicesStream.mul (E:=float_Elem) (InDouble double_0_4) nine
  = Some [S754_finite false 15099494 (-22)] ∧
  b <$> ThrustStream.mul (E:=float_Elem) (InDouble double_0_4) nine
  = Some [S754_finite false 15099495 (-22)].
Proof. by vm_compute. Qed.

(** [a = [1; 1; 1; 1]] and [b = [2; 2; 2; 2]] give [2 * 4]. *)
Example std_dot_ones_twos :
  fst <$> STDIndicesStream.dot (E:=double_Elem) (L:=sequential true)
    {| array_size := 4;
       a := replicate 4 (double_of_Z 1);
       b := replicate 4 (double_of_Z 2);
       c := replicate 4 (double_of_Z 0) |}
  = Some (double_of_Z 8).
Proof. by vm_compute. Qed.

(** [dot] of [a = [2^24; 1; 1]] and [b = [1; 1; 1]] in [float], in index
    order: with every addition in [float] the ones are rounded away, with
    the additions in [double] the sum is exact. *)
Example dot_large_small :
  fst <$> STDIndicesStream.dot (E:=float_Elem) (L:=sequential false)
            (large_small Float) = Some (float_of_Z 16777216) ∧
  fst <$> STDIndicesStream.dot (E:=float_Elem) (L:=sequential true)
            (large_small Float) = Some (float_of_Z 16777218) ∧
  fst <$> ThrustStream.dot (E:=float_Elem) (L:=sequential false)
            (large_small Float) = Some (float_of_Z 16777216).
Proof. by vm_compute. Qed.

Example thrust_nstream_three_calls :
  a <$> (ThrustStream.init_arrays
           (float_of_Z 1) (float_of_Z 1) (float_of_Z 1) single
         ≫= repeat_kernel 3
              (ThrustStream.nstream (E:=float_Elem) (InT (float_of_Z 2))))
  = Some [float_of_Z 10].
Proof. by vm_compute. Qed.

(** An array shorter than [array_size] is read past its end. *)
Example std_copy_out_of_bounds :
  STDIndicesStream.copy
    {| array_size := 2; a := [float_of_Z 1];
       b := [float_of_Z 1; float_of_Z 1];
       c := [float_of_Z 1; float_of_Z 1] |}
  = None.
Proof. by vm_compute. Qed.

(** [2^24 + 1] is not a [float]: the sum rounds to even. *)
Example float_add_rounds :
  float_add (float_of_Z 16777216) (float_of_Z 1) = float_of_Z 16777216 ∧
  float_add (float_of_Z 16777216) (float_of_Z 2) = float_of_Z 16777218 ∧
  SFtoZ (float_of_Z 16777218) = Some 16777218%Z.
Proof. by vm_compute. Qed.
End Runs.

(** * The kernel contract *)
Section Claims.
Import Contract Backend Examples.

(** C2. For every backend and every state with arrays of length
    [array_size], one call of [triad] succeeds and makes every element of
    [a] equal to [b[i] + scalar * c[i]], with [b[i]] and [c[i]] the values
    before the call at the same index.  The Thrust backend computes the
    expression in [T], with the scalar converted to [T]; the STD-indices
    backend computes it under the usual arithmetic conversions, with the
    scalar in the type of [startScalar], and converts the result to [T]. *)
Theorem triad_elements {T : Type} {E : Elem T} (scalar : number T)
    (bk : backend) (st : Stream T) :
  wf st →
  ∃ st', triad scalar bk st = Some st' ∧
    length (a st') = array_size st ∧
    ∀ i bi ci, b st !! i = Some bi → c st !! i = Some ci →
      a st' !! i
      = Some (match bk with
              | STDIndices =>
                  as_T (usual_add (InT bi) (usual_mul scalar (InT ci)))
              | Thrust => (bi + as_T scalar * ci)%E
              end).
Proof.
  intros Hwf. exists (triad_result bk scalar st).
  split; [by apply backend_triad|]. split.
  - by destruct (wf_triad_result scalar bk st Hwf).
  - intros i bi ci Hb Hc. unfold triad_result; simpl.
    rewrite lookup_zip_with, Hb, Hc. by destruct bk.
Qed.

Lemma triad_elements_witness :
  wf small ∧
  ∃ st',
    triad (E:=float_Elem) (InDouble (double_of_Z 2)) STDIndices small
    = Some st' ∧
    length (a st') = array_size small ∧
    ∀ i bi ci, b small !! i = Some bi → c small !! i = Some ci →
      a st' !! i
      = Some (float_of_double
                (double_add (double_of_float bi)
                   (double_mul (double_of_Z 2) (double_of_float ci)))).
Proof.
  split; [by repeat split|].
  apply (triad_elements (E:=float_Elem) (InDouble (double_of_Z 2))
           STDIndices small).
  by repeat split.
Defined.

(** C3. For every element type, every array size and all values [x], [y],
    [z]: [init_arrays(x, y, z)] followed by [read_arrays] into host buffers
    of [array_size] elements, with no kernel in between, gives host arrays
    whose elements all equal [x], [y] and [z] respectively. *)
Theorem init_then_read {T : Type} (bk : backend) (x y z : T)
    (st : Stream T) (h : Host T) :
  wf st →
  length (h_a h) = array_size st →
  length (h_b h) = array_size st →
  length (h_c h) = array_size st →
  ∃ st' h', init_arrays bk x y z st = Some st' ∧
    read_arrays bk h st' = Some (h', st') ∧
    h_a h' = all_equal (array_size st) x ∧
    h_b h' = all_equal (array_size st) y ∧
    h_c h' = all_equal (array_size st) z.
Proof.
  intros Hwf Ha Hb Hc.
  exists (init_result x y z st), (read_result h (init_result x y z st)).
  split; [by apply backend_init_arrays|]. split.
  - rewrite backend_read_arrays by (by apply wf_init_result).
    rewrite decide_True; [done|]. unfold fits; simpl. lia.
  - unfold read_result; simpl.
    by rewrite !drop_ge, !app_nil_r by lia.
Qed.

Lemma init_then_read_witness :
  wf small ∧
  ∃ st' h',
    init_arrays STDIndices
      (float_of_Z 7) (float_of_Z 8) (float_of_Z 9) small = Some st' ∧
    read_arrays STDIndices small_host st' = Some (h', st') ∧
    h_a h' = [float_of_Z 7; float_of_Z 7] ∧
    h_b h' = [float_of_Z 8; float_of_Z 8] ∧
    h_c h' = [float_of_Z 9; float_of_Z 9].
Proof.
  split; [by repeat split|].
  apply (init_then_read STDIndices
           (float_of_Z 7) (float_of_Z 8) (float_of_Z 9) small small_host);
    by repeat split.
Defined.

(** C4. For every backend and every state with arrays of length
    [array_size], [dot] returns the sum over all indices [i] of
    [a[i] * b[i]] and leaves the state, hence the three arrays, as it was.
    The sum is the generalised sum of a parallel reduction: every product
    and the initial value are added once, in the order and grouping that
    the library chooses.  The Thrust backend starts from [T{}] and adds in
    [T]; the STD-indices backend starts from the [double] [0.0], adds in
    [T] or in [double] as the library chooses, and converts the result to
    [T]. *)
Theorem dot_sum {T : Type} {E : Elem T} {L : Reduction} (bk : backend)
    (st : Stream T) :
  wf st →
  ∃ r, dot bk st = Some (r, st) ∧
    match bk with
    | STDIndices =>
        generalized_sum true (InDouble double_zero)
          (zip_with elem_mul (a st) (b st)) r
    | Thrust =>
        generalized_sum false (InT elem_zero)
          (zip_with elem_mul (a st) (b st)) r
    end.
Proof.
  intros Hwf. destruct (backend_dot bk st Hwf) as (r & Hdot & Hsum).
  exists r. split; [done|]. by destruct bk.
Qed.

Lemma dot_sum_witness :
  wf small ∧
  ∃ r,
    dot (E:=float_Elem) (L:=sequential false) STDIndices small
    = Some (r, small) ∧
    generalized_sum (E:=float_Elem) true (InDouble double_zero)
      (zip_with float_mul (a small) (b small)) r.
Proof.
  split; [by repeat split|].
  apply (dot_sum (E:=float_Elem) (L:=sequential false) STDIndices small).
  by repeat split.
Defined.

(** C5. Every operation writes only its output array: [copy] and [add]
    change only [c], [mul] only [b], [triad] and [nstream] only [a], and
    [dot] and [read_arrays] leave the whole state as it was; for every
    backend and every state before the call. *)
Theorem kernels_frame {T : Type} {E : Elem T} {L : Reduction}
    (scalar : number T) (bk : backend) (st : Stream T) (h : Host T) :
  wf st → fits h st →
  (∃ st', copy bk st = Some st' ∧ writes_only C st st') ∧
  (∃ st', add bk st = Some st' ∧ writes_only C st st') ∧
  (∃ st', mul scalar bk st = Some st' ∧ writes_only B st st') ∧
  (∃ st', triad scalar bk st = Some st' ∧ writes_only A st st') ∧
  (∃ st', nstream scalar bk st = Some st' ∧ writes_only A st st') ∧
  (∃ r st', dot bk st = Some (r, st') ∧ writes_nothing st st') ∧
  (∃ h' st', read_arrays bk h st = Some (h', st') ∧ writes_nothing st st').
Proof.
  intros Hwf Hfits.
  assert (Hset : ∀ x l, writes_only x st (set x l st)).
  { intros x l. split; [apply array_size_set|].
    intros y Hy. by apply get_set_ne. }
  repeat split.
  - exists (copy_result st). split; [by apply backend_copy | apply Hset].
  - exists (add_result st). split; [by apply backend_add | apply Hset].
  - exists (mul_result bk scalar st).
    split; [by apply backend_mul | apply Hset].
  - exists (triad_result bk scalar st).
    split; [by apply backend_triad | apply Hset].
  - exists (nstream_result bk scalar st).
    split; [by apply backend_nstream | apply Hset].
  - destruct (backend_dot bk st Hwf) as (r & Hdot & _). by exists r, st.
  - rewrite backend_read_arrays, decide_True by done. by eexists _, _.
Qed.

Lemma kernels_frame_witness :
  wf small ∧ fits small_host small ∧
  (∃ st', copy STDIndices small = Some st' ∧ writes_only C small st') ∧
  (∃ st', add (E:=float_Elem) STDIndices small = Some st' ∧
          writes_only C small st') ∧
  (∃ st', mul (E:=float_Elem) (InDouble (double_of_Z 2)) STDIndices small
          = Some st' ∧
          writes_only B small st') ∧
  (∃ st', triad (E:=float_Elem) (InDouble (double_of_Z 2)) STDIndices small
          = Some st' ∧
          writes_only A small st') ∧
  (∃ st', nstream (E:=float_Elem) (InDouble (double_of_Z 2)) STDIndices small
          = Some st' ∧
          writes_only A small st') ∧
  (∃ r st', dot (E:=float_Elem) (L:=sequential false) STDIndices small
            = Some (r, st') ∧
            writes_nothing small st') ∧
  (∃ h' st', read_arrays STDIndices small_host small = Some (h', st') ∧
             writes_nothing small st').
Proof.
  split; [by repeat split|]. split; [unfold fits; simpl; lia|].
  apply (kernels_frame (E:=float_Elem) (L:=sequential false)
           (InDouble (double_of_Z 2)) STDIndices small small_host).
  - by repeat split.
  - unfold fits; simpl; lia.
Defined.

(** C6. For every [R >= 1], [R] calls of [triad] in a row leave the state
    as one call does, since [triad] does not read [a]; after
    [init_arrays(x, y, z)] every element of [a] is then [y + scalar * z],
    as the lambda of the backend computes it, whatever [R] is. *)
Theorem triad_repeated {T : Type} {E : Elem T} (scalar : number T)
    (x y z : T) (bk : backend) (st : Stream T) (R : N) :
  wf st → (1 ≤ R)%N →
  repeat_kernel R (triad scalar bk) st = triad scalar bk st ∧
  ∃ st0 st1, init_arrays bk x y z st = Some st0 ∧
    repeat_kernel R (triad scalar bk) st0 = Some st1 ∧
    a st1
    = all_equal (array_size st)
        (match bk with
         | STDIndices => as_T (usual_add (InT y) (usual_mul scalar (InT z)))
         | Thrust => (y + as_T scalar * z)%E
         end).
Proof.
  intros Hwf HR.
  replace R with (N.succ (N.pred R)) by lia.
  split.
  - by rewrite triad_repeat, backend_triad.
  - exists (init_result x y z st),
      (triad_result bk scalar (init_result x y z st)).
    split; [by apply backend_init_arrays|].
    split; [apply triad_repeat; by apply wf_init_result|].
    unfold triad_result, init_result, all_equal; simpl.
    rewrite zip_with_replicate. by destruct bk.
Qed.

Lemma triad_repeated_witness :
  wf small ∧ (1 ≤ 3)%N ∧
  repeat_kernel 3
    (triad (E:=float_Elem) (InDouble (double_of_Z 2)) STDIndices) small
  = triad (E:=float_Elem) (InDouble (double_of_Z 2)) STDIndices small ∧
  ∃ st0 st1,
    init_arrays STDIndices (float_of_Z 1) (float_of_Z 2) (float_of_Z 3) small
    = Some st0 ∧
    repeat_kernel 3
      (triad (E:=float_Elem) (InDouble (double_of_Z 2)) STDIndices) st0
    = Some st1 ∧
    a st1 = [float_of_Z 8; float_of_Z 8].
Proof.
  split; [by repeat split|]. split; [lia|].
  apply (triad_repeated (E:=float_Elem) (InDouble (double_of_Z 2))
           (float_of_Z 1) (float_of_Z 2) (float_of_Z 3) STDIndices small 3).
  - by repeat split.
  - lia.
Defined.

(** C7. [copy] is idempotent: for every backend and every state, a second
    call of [copy] succeeds and leaves the state that the first call
    produced, in which [c] equals [a] and [a] and [b] are as before. *)
Theorem copy_idempotent {T : Type} (bk : backend) (st : Stream T) :
  wf st →
  ∃ st', copy bk st = Some st' ∧ copy bk st' = Some st' ∧
    a st' = a st ∧ b st' = b st ∧ c st' = a st.
Proof.
  intros Hwf. exists (copy_result st).
  split; [by apply backend_copy|]. split; [|done].
  by rewrite backend_copy by (by apply wf_copy_result).
Qed.

Lemma copy_idempotent_witness :
  wf small ∧
  ∃ st', copy Thrust small = Some st' ∧ copy Thrust st' = Some st' ∧
    a st' = a small ∧ b st' = b small ∧ c st' = a small.
Proof.
  split; [by repeat split|].
  apply (copy_idempotent Thrust small). by repeat split.
Defined.

(** C9. [read_arrays] overwrites exactly the first [array_size] elements of
    each host buffer with the elements of the backend array and keeps the
    rest of the buffer; it succeeds when every host buffer has at least
    [array_size] elements, and writes out of bounds when one is shorter. *)
Theorem read_arrays_bounds {T : Type} (bk : backend) (h : Host T)
    (st : Stream T) :
  wf st →
  (fits h st →
     ∃ h', read_arrays bk h st = Some (h', st) ∧
       take (array_size st) (h_a h') = a st ∧
       take (array_size st) (h_b h') = b st ∧
       take (array_size st) (h_c h') = c st ∧
       drop (array_size st) (h_a h') = drop (array_size st) (h_a h) ∧
       drop (array_size st) (h_b h') = drop (array_size st) (h_b h) ∧
       drop (array_size st) (h_c h') = drop (array_size st) (h_c h)) ∧
  (¬ fits h st → read_arrays bk h st = None).
Proof.
  intros Hwf. rewrite backend_read_arrays by done. split.
  - intros Hfits. rewrite decide_True by done.
    eexists; split; [done|]. destruct Hwf as (Ha & Hb & Hc).
    assert (Hsplit : ∀ l k : list T, length l = array_size st →
      take (array_size st) (l ++ k) = l ∧ drop (array_size st) (l ++ k) = k).
    { intros l k <-. split; [apply take_app_length | apply drop_app_length]. }
    unfold read_result; simpl.
    destruct (Hsplit (a st) (drop (array_size st) (h_a h)) Ha) as [-> ->].
    destruct (Hsplit (b st) (drop (array_size st) (h_b h)) Hb) as [-> ->].
    by destruct (Hsplit (c st) (drop (array_size st) (h_c h)) Hc) as [-> ->].
  - intros Hshort. by rewrite decide_False.
Qed.

Lemma read_arrays_bounds_witness :
  wf small ∧
  (∃ h', read_arrays Thrust small_host small = Some (h', small) ∧
     take 2 (h_a h') = a small ∧
     take 2 (h_b h') = b small ∧
     take 2 (h_c h') = c small ∧
     drop 2 (h_a h') = [] ∧ drop 2 (h_b h') = [] ∧ drop 2 (h_c h') = []) ∧
  read_arrays Thrust {| h_a := [S754_zero false]; h_b := []; h_c := [] |} small
  = None.
Proof.
  split; [by repeat split|]. split.
  - apply (read_arrays_bounds Thrust small_host small); [by repeat split|].
    unfold fits; simpl; lia.
  - apply (read_arrays_bounds Thrust _ small); [by repeat split|].
    unfold fits; simpl; lia.
Defined.
(** C8. Where the backend has no device (the STD-indices backend, and the
    Thrust backend built for a host system), [getDeviceName] and
    [getDeviceDriver] return one fixed string each, which contains
    "unavailable", whatever device id is passed. *)
Theorem device_strings_unavailable (sys : ThrustStream.device_system)
    (rt : ThrustStream.Runtime) :
  ThrustStream.has_device sys = false →
  ∃ name driver name' driver' : string,
    (∀ device, STDIndicesStream.getDeviceName device = name) ∧
    (∀ device, STDIndicesStream.getDeviceDriver device = driver) ∧
    (∀ device, ThrustStream.getDeviceName sys rt device = Some name') ∧
    (∀ device, ThrustStream.getDeviceDriver sys rt device = Some driver') ∧
    contains "unavailable" name ∧ contains "unavailable" driver ∧
    contains "unavailable" name' ∧ contains "unavailable" driver'.
Proof.
  intros Hsys.
  exists "Device name unavailable", "Device driver unavailable",
    "(device name unavailable)", "(device driver unavailable)".
  unfold ThrustStream.getDeviceName, ThrustStream.getDeviceDriver.
  rewrite Hsys. repeat split.
  - by exists "Device name ", "".
  - by exists "Device driver ", "".
  - by exists "(device name ", ")".
  - by exists "(device driver ", ")".
Qed.

Lemma device_strings_unavailable_witness :
  ThrustStream.has_device ThrustStream.OMP = false ∧
  ∃ name driver name' driver' : string,
    (∀ device, STDIndicesStream.getDeviceName device = name) ∧
    (∀ device, STDIndicesStream.getDeviceDriver device = driver) ∧
    (∀ device,
       ThrustStream.getDeviceName ThrustStream.OMP no_runtime device
       = Some name') ∧
    (∀ device,
       ThrustStream.getDeviceDriver ThrustStream.OMP no_runtime device
       = Some driver') ∧
    contains "unavailable" name ∧ contains "unavailable" driver ∧
    contains "unavailable" name' ∧ contains "unavailable" driver'.
Proof.
  split; [reflexivity|].
  apply (device_strings_unavailable ThrustStream.OMP no_runtime).
  reflexivity.
Defined.

(** C1, as stated, fails for [float]: after [init_arrays(1, 1, 1)] and
    5592406 calls of [nstream] with scalar 2, the element of [a] is
    16777218 and not [1 + 3 * 5592406 = 16777219], which is no [float]:
    the call before gave [2^24], and [2^24 + 1] rounds to [2^24].  This is
    so in both backends, whether the scalar is a [float] or a [double]. *)
Lemma nstream_float_past_mantissa :
  wf single ∧
  (∀ bk wide, ∃ st0 stR,
     init_arrays bk (float_of_Z 1) (float_of_Z 1) (float_of_Z 1) single
     = Some st0 ∧
     repeat_kernel 5592406
       (nstream (E:=float_Elem) (format_scalar Float wide 2) bk) st0
     = Some stR ∧
     a stR = [S754_finite false 8388609 1]) ∧
  SFtoZ (S754_finite false 8388609 1) = Some 16777218%Z ∧
  (1 + 3 * Z.of_N 5592406)%Z = 16777219%Z.
Proof.
  assert (Hwf : wf single) by (by repeat split).
  split; [exact Hwf|]. split; [|split; reflexivity].
  intros bk wide. eexists _, _.
  split; [exact (backend_init_arrays bk _ _ _ single Hwf)|].
  split; [exact (nstream_repeat (E:=float_Elem) (format_scalar Float wide 2)
                   bk _ _ _ 5592406 single Hwf)|].
  change (all_equal 1
            (nstream_value (E:=float_Elem) bk (format_scalar Float wide 2)
               (float_of_Z 1) (float_of_Z 1) (float_of_Z 1) 5592406)
          = [S754_finite false 8388609 1]).
  rewrite float_value_past_limit. reflexivity.
Qed.

(** C1, amended. For every backend and array size, one call of [nstream]
    makes every element of [a] equal to [a[i] + b[i] + scalar * c[i]], in
    floating-point arithmetic from the values before the call: in [T] with
    the scalar converted to [T] in the Thrust backend; under the usual
    arithmetic conversions with the scalar in the type of [startScalar],
    the result converted to [T], in the STD-indices backend.  Hence after
    [init_arrays(x, y, z)] and [R] calls every element of [a] is [a_R],
    where [a_0 = x] and [a_r = a_{r-1} + y + scalar * z] computed that way.
    For [float] and [double], with [x = y = z = 1] and the scalar 2 of
    either type, every element of [a] after [R] calls is the integer
    [1 + 3 * R] as long as [1 + 3 * R] is at most [2^24] for [float] and
    [2^53] for [double]. *)
Theorem nstream_repeated {T : Type} {E : Elem T} (scalar : number T)
    (x y z : T) (bk : backend) (st : Stream T) (R : N)
    (fmt : format) (wide : bool) (sf : Stream spec_float) (Rf : N) :
  wf st → wf sf → (1 + 3 * Z.of_N Rf ≤ 2 ^ format_prec fmt)%Z →
  (∃ st', nstream scalar bk st = Some st' ∧
     length (a st') = array_size st ∧
     ∀ i ai bi ci,
       a st !! i = Some ai → b st !! i = Some bi → c st !! i = Some ci →
       a st' !! i
       = Some (match bk with
               | STDIndices =>
                   as_T (usual_add (usual_add (InT ai) (InT bi))
                           (usual_mul scalar (InT ci)))
               | Thrust => (ai + bi + as_T scalar * ci)%E
               end)) ∧
  (∃ st0 stR, init_arrays bk x y z st = Some st0 ∧
     repeat_kernel R (nstream scalar bk) st0 = Some stR ∧
     a stR = all_equal (array_size st) (nstream_value bk scalar x y z R)) ∧
  nstream_value bk scalar x y z 0 = x ∧
  nstream_value bk scalar x y z (N.succ R)
  = nstream_formula bk scalar (nstream_value bk scalar x y z R) y z ∧
  (∃ sf0 sfR,
     init_arrays bk (format_of_Z fmt 1) (format_of_Z fmt 1)
       (format_of_Z fmt 1) sf = Some sf0 ∧
     repeat_kernel Rf
       (nstream (E:=format_Elem fmt) (format_scalar fmt wide 2) bk) sf0
     = Some sfR ∧
     length (a sfR) = array_size sf ∧
     ∀ i v, a sfR !! i = Some v → SFtoZ v = Some (1 + 3 * Z.of_N Rf)%Z).
Proof.
  intros Hwf Hwfs Hle. repeat split.
  - exists (nstream_result bk scalar st).
    split; [by apply backend_nstream|]. split.
    + by destruct (wf_nstream_result scalar bk st Hwf).
    + intros i ai bi ci Ha Hb Hc. unfold nstream_result; simpl.
      apply lookup_map3. exists ai, bi, ci. by destruct bk.
  - eexists _, _. split; [by apply backend_init_arrays|].
    split; [by apply nstream_repeat | done].
  - unfold nstream_value. by rewrite N.iter_succ.
  - eexists _, _. split; [by apply backend_init_arrays|].
    split; [by apply (nstream_repeat (E:=format_Elem fmt))|].
    split; [apply length_replicate|].
    intros i v Hv. apply lookup_replicate in Hv as [-> _].
    apply (is_int_SFtoZ (format_prec fmt)).
    + apply format_prec_emax.
    + by apply nstream_value_int.
Qed.

Lemma nstream_repeated_witness :
  wf small ∧ wf single ∧ (1 + 3 * Z.of_N 4 ≤ 2 ^ format_prec Float)%Z ∧
  (∃ st',
     nstream (E:=float_Elem) (InDouble (double_of_Z 2)) STDIndices small
     = Some st' ∧
     length (a st') = array_size small ∧
     ∀ i ai bi ci,
       a small !! i = Some ai → b small !! i = Some bi →
       c small !! i = Some ci →
       a st' !! i
       = Some (float_of_double
                 (double_add (double_of_float (float_add ai bi))
                    (double_mul (double_of_Z 2) (double_of_float ci))))) ∧
  (∃ sf0 sfR,
     init_arrays STDIndices (float_of_Z 1) (float_of_Z 1) (float_of_Z 1) single
     = Some sf0 ∧
     repeat_kernel 4
       (nstream (E:=float_Elem) (InDouble (double_of_Z 2)) STDIndices) sf0
     = Some sfR ∧
     length (a sfR) = array_size single ∧
     ∀ i v, a sfR !! i = Some v → SFtoZ v = Some 13%Z).
Proof.
  assert (Hsmall : wf small) by (by repeat split).
  assert (Hsingle : wf single) by (by repeat split).
  assert (Hle : (1 + 3 * Z.of_N 4 ≤ 2 ^ format_prec Float)%Z)
    by (by vm_compute).
  destruct (nstream_repeated (E:=float_Elem) (InDouble (double_of_Z 2))
              (float_of_Z 1) (float_of_Z 1) (float_of_Z 1) STDIndices small 4
              Float true single 4 Hsmall Hsingle Hle)
    as (Hcall & _ & _ & _ & Hfloat).
  by repeat split.
Defined.
End Claims.

(** * Further properties of the kernels *)

(** ** Element access functions at different indices commute *)
Section Order.
Context {T : Type}.
Implicit Types (st : Stream T) (dst : array).

Lemma load_local dst y : local_read (T:=T) dst (load y).
Proof.
  intros i j w st Hij. unfold load.
  destruct (decide (dst = y)) as [->|Hne].
  - rewrite get_set_eq. by apply list_lookup_insert_ne.
  - by rewrite get_set_ne.
Qed.

Lemma access_commute dst (rd : nat → Stream T → option T) i j st :
  local_read dst rd → i ≠ j →
  (v ← rd i st; store dst i v st) ≫= (λ s, v ← rd j s; store dst j v s)
  = (v ← rd j st; store dst j v st) ≫= (λ s, v ← rd i s; store dst i v s).
Proof.
  intros Hloc Hij. unfold store.
  destruct (rd i st) as [v|] eqn:Hi, (rd j st) as [w|] eqn:Hj; simpl;
    repeat case_decide; simpl;
    rewrite ?get_set_eq, ?length_insert, ?Hloc, ?Hi, ?Hj by done; simpl;
    repeat case_decide; try done; try lia.
  rewrite !set_set. f_equal. f_equal. by apply list_insert_insert_ne.
Qed.

Lemma for_each_permutation dst (rd : nat → Stream T → option T)
    (idx idx' : list nat) :
  local_read dst rd → idx ≡ₚ idx' →
  ∀ st, for_each idx (λ i s, v ← rd i s; store dst i v s) st
        = for_each idx' (λ i s, v ← rd i s; store dst i v s) st.
Proof.
  intros Hloc Hperm.
  induction Hperm as [|x l l' _ IH|x y l|l l' l'' _ IH1 _ IH2]; intros st.
  - done.
  - simpl. destruct (rd x st ≫= _); [apply IH | done].
  - destruct (decide (x = y)) as [->|Hxy]; [done|].
    pose proof (access_commute dst rd y x st Hloc (not_eq_sym Hxy)) as Hc.
    simpl.
    destruct (rd y st ≫= _) as [s1|]; destruct (rd x st ≫= _) as [s2|];
      simpl in Hc.
    + by rewrite Hc.
    + by rewrite Hc.
    + by rewrite <- Hc.
    + done.
  - by rewrite IH1, IH2.
Qed.
End Order.

(** ** Calls through the interface *)
Section CallFacts.
Context {T : Type} {E : Elem T}.
Variable startScalar : number T.
Implicit Types (st : Stream T) (bk : Backend.backend) (k : Calls.kernel).

Import Contract Calls.

Lemma value_local bk k : local_read (output k) (value startScalar bk k).
Proof.
  intros i j w st Hij.
  destruct k; unfold value;
    by rewrite !(load_local _ _ i j w st Hij).
Qed.

(** In index order the element access functions are the kernel. *)
Lemma call_sequential bk k st :
  wf st →
  for_each (seq 0 (array_size st)) (access startScalar bk k) st
  = call startScalar bk k st.
Proof.
  intros Hwf. destruct k, bk; simpl;
    unfold STDIndicesStream.copy, STDIndicesStream.mul, STDIndicesStream.add,
      STDIndicesStream.triad, STDIndicesStream.nstream, STDIndicesStream.range,
      ThrustStream.copy, ThrustStream.mul, ThrustStream.add,
      ThrustStream.triad, ThrustStream.nstream, ThrustStream.transform;
    rewrite ?std_transform_for_each, ?thrust_positions by done;
    reflexivity.
Qed.

(** Every kernel writes a list of [array_size] elements to its output. *)
Lemma call_result bk k st :
  wf st →
  ∃ l, call startScalar bk k st = Some (set (output k) l st) ∧
       length l = array_size st.
Proof.
  intros Hwf. destruct k; simpl.
  - exists (a st). split; [by apply backend_copy | by apply (wf_get A)].
  - eexists. split; [by apply backend_mul|].
    destruct Hwf as (Ha & Hb & Hc). by rewrite length_fmap.
  - eexists. split; [by apply backend_add|].
    destruct Hwf as (Ha & Hb & Hc). rewrite length_zip_with. lia.
  - eexists. split; [by apply backend_triad|].
    destruct Hwf as (Ha & Hb & Hc). rewrite length_zip_with. lia.
  - eexists. split; [by apply backend_nstream|].
    destruct Hwf as (Ha & Hb & Hc). by apply length_map3.
Qed.

Lemma run_wf bk (ks : list kernel) :
  ∀ st, wf st →
    ∃ st', run startScalar bk ks st = Some st' ∧ wf st' ∧
           array_size st' = array_size st.
Proof.
  induction ks as [|k ks IH]; intros st Hwf; simpl.
  - by exists st.
  - destruct (call_result bk k st Hwf) as (l & -> & Hl).
    destruct (IH (set (output k) l st)) as (st' & Hrun & Hwf' & Hsize).
    { by apply wf_set. }
    exists st'. split; [done|]. split; [done|].
    by rewrite Hsize, array_size_set.
Qed.
End CallFacts.

(** IEEE multiplication does not depend on the order of its operands. *)
Lemma SFmul_comm prec emax x y : SFmul prec emax x y = SFmul prec emax y x.
Proof.
  destruct x as [sx|sx| |sx mx ex], y as [sy|sy| |sy my ey]; simpl;
    try reflexivity; try (by rewrite (xorb_comm sx sy)).
  by rewrite (xorb_comm sx sy), (Pos.mul_comm mx my), (Z.add_comm ex ey).
Qed.

(** ** Properties of the calls *)
Section CallProperties.
Import Contract Backend Calls Examples.

(** X1. The result of a kernel does not depend on the order in which the
    execution policy runs its element access functions: run in any
    permutation of the indices, they give the state that the kernel gives.
    This holds for [nstream] too, which reads the array it writes. *)
Theorem kernel_order_independent {T : Type} {E : Elem T} (scalar : number T)
    (bk : backend) (k : kernel) (order : list nat) (st : Stream T) :
  wf st → order ≡ₚ seq 0 (array_size st) →
  call_in_order scalar order bk k st = call scalar bk k st.
Proof.
  intros Hwf Hperm. unfold call_in_order.
  rewrite <- (call_sequential scalar bk k st Hwf).
  apply (for_each_permutation (output k) (value scalar bk k));
    [apply value_local | done].
Qed.

Lemma kernel_order_independent_witness :
  wf small ∧ [1; 0] ≡ₚ seq 0 (array_size small) ∧
  call_in_order (E:=float_Elem) (InDouble (double_of_Z 2)) [1; 0] Thrust Nstream small
  = call (E:=float_Elem) (InDouble (double_of_Z 2)) Thrust Nstream small.
Proof.
  assert (Hperm : [1; 0] ≡ₚ seq 0 (array_size small)) by apply perm_swap.
  split; [by repeat split|]. split; [exact Hperm|].
  apply (kernel_order_independent (E:=float_Elem) (InDouble (double_of_Z 2))
           Thrust Nstream [1; 0] small); [by repeat split | exact Hperm].
Defined.

(** X2. No sequence of kernel calls goes out of bounds: from a state whose
    arrays have [array_size] elements, every sequence of kernels succeeds,
    and leaves [array_size] and the lengths of the three arrays as they
    were. *)
Theorem run_keeps_sizes {T : Type} {E : Elem T} (scalar : number T) (bk : backend)
    (ks : list kernel) (st : Stream T) :
  wf st →
  ∃ st', run scalar bk ks st = Some st' ∧ wf st' ∧
         array_size st' = array_size st.
Proof. intros Hwf. by apply run_wf. Qed.

Lemma run_keeps_sizes_witness :
  wf small ∧
  ∃ st', run (E:=float_Elem) (InDouble (double_of_Z 2)) STDIndices
           [Copy; Mul; Add; Triad; Nstream] small = Some st' ∧
         wf st' ∧ array_size st' = array_size small.
Proof.
  split; [by repeat split|].
  apply (run_keeps_sizes (E:=float_Elem) (InDouble (double_of_Z 2)) STDIndices
           [Copy; Mul; Add; Triad; Nstream] small).
  by repeat split.
Defined.

(** X3. A kernel reads only its input arrays: [copy] reads [a], [mul] reads
    [c], [add] reads [a] and [b], [triad] reads [b] and [c], [nstream] reads
    all three.  On two states of the same size that agree on the inputs of
    a kernel, the kernel writes the same values to its output. *)
Theorem kernel_reads_inputs_only {T : Type} {E : Elem T} (scalar : number T)
    (bk : backend) (k : kernel) (st1 st2 : Stream T) :
  wf st1 → wf st2 → array_size st1 = array_size st2 →
  (∀ y, y ∈ inputs k → get y st1 = get y st2) →
  ∃ l, call scalar bk k st1 = Some (set (output k) l st1) ∧
       call scalar bk k st2 = Some (set (output k) l st2).
Proof.
  intros Hwf1 Hwf2 Hsize Hin.
  assert (HA : A ∈ inputs k → a st1 = a st2) by (intros H; exact (Hin A H)).
  assert (HB : B ∈ inputs k → b st1 = b st2) by (intros H; exact (Hin B H)).
  assert (HC : C ∈ inputs k → c st1 = c st2) by (intros H; exact (Hin C H)).
  destruct k; cbn [call output inputs] in *.
  - rewrite !backend_copy by done. unfold copy_result.
    rewrite <- HA by (repeat first [apply list_elem_of_here | apply list_elem_of_further]). eexists; split; reflexivity.
  - rewrite !backend_mul by done. unfold mul_result.
    rewrite <- HC by (repeat first [apply list_elem_of_here | apply list_elem_of_further]). eexists; split; reflexivity.
  - rewrite !backend_add by done. unfold add_result.
    rewrite <- HA, <- HB by (repeat first [apply list_elem_of_here | apply list_elem_of_further]). eexists; split; reflexivity.
  - rewrite !backend_triad by done. unfold triad_result.
    rewrite <- HB, <- HC by (repeat first [apply list_elem_of_here | apply list_elem_of_further]). eexists; split; reflexivity.
  - rewrite !backend_nstream by done. unfold nstream_result.
    rewrite <- HA, <- HB, <- HC by (repeat first [apply list_elem_of_here | apply list_elem_of_further]). eexists; split; reflexivity.
Qed.

Lemma kernel_reads_inputs_only_witness :
  wf small ∧ wf (set A [float_of_Z 9; float_of_Z 9] small) ∧
  ∃ l,
    call (E:=float_Elem) (InDouble (double_of_Z 2)) Thrust Triad small
    = Some (set A l small) ∧
    call (E:=float_Elem) (InDouble (double_of_Z 2)) Thrust Triad
      (set A [float_of_Z 9; float_of_Z 9] small)
    = Some (set A l (set A [float_of_Z 9; float_of_Z 9] small)).
Proof.
  split; [by repeat split|]. split; [by repeat split|].
  apply (kernel_reads_inputs_only (E:=float_Elem) (InDouble (double_of_Z 2)) Thrust Triad
           small (set A [float_of_Z 9; float_of_Z 9] small));
    [by repeat split | by repeat split | done |].
  intros y Hy. simpl in Hy.
  destruct y; [|done|done].
  rewrite !elem_of_cons, elem_of_nil in Hy. by destruct Hy as [|[|]].
Defined.

(** X4. One call of [mul] makes every element of [b] the product of the
    scalar and the element of [c] at the same index before the call.  The
    STD-indices backend multiplies [scalar * c[i]] under the usual
    arithmetic conversions, with the scalar in the type of [startScalar],
    and converts the product to [T]; the Thrust backend multiplies
    [c[i] * scalar] in [T], with the scalar converted to [T]. *)
Theorem mul_elements {T : Type} {E : Elem T} (scalar : number T)
    (bk : backend) (st : Stream T) :
  wf st →
  ∃ st', mul scalar bk st = Some st' ∧
    length (b st') = array_size st ∧
    ∀ i ci, c st !! i = Some ci →
      b st' !! i = Some (match bk with
                         | STDIndices => as_T (usual_mul scalar (InT ci))
                         | Thrust => (ci * as_T scalar)%E
                         end).
Proof.
  intros Hwf. exists (mul_result bk scalar st).
  split; [by apply backend_mul|]. split.
  - by destruct (wf_mul_result scalar bk st Hwf) as (_ & ? & _).
  - intros i ci Hi. unfold mul_result; simpl.
    rewrite list_lookup_fmap, Hi. by destruct bk.
Qed.

Lemma mul_elements_witness :
  wf small ∧
  ∃ st',
    mul (E:=float_Elem) (InDouble (double_of_Z 2)) STDIndices small
    = Some st' ∧
    length (b st') = array_size small ∧
    ∀ i ci, c small !! i = Some ci →
      b st' !! i
      = Some (float_of_double
                (double_mul (double_of_Z 2) (double_of_float ci))).
Proof.
  split; [by repeat split|].
  apply (mul_elements (E:=float_Elem) (InDouble (double_of_Z 2))
           STDIndices small).
  by repeat split.
Defined.

(** X5. One call of [add] makes every element of [c] equal to
    [a[i] + b[i]], from the values before the call, in both backends. *)
Theorem add_elements {T : Type} {E : Elem T} (bk : backend) (st : Stream T) :
  wf st →
  ∃ st', add bk st = Some st' ∧
    length (c st') = array_size st ∧
    ∀ i ai bi, a st !! i = Some ai → b st !! i = Some bi →
      c st' !! i = Some (ai + bi)%E.
Proof.
  intros Hwf. exists (add_result st).
  split; [by apply backend_add|].
  destruct Hwf as (Ha & Hb & Hc). unfold add_result; simpl. split.
  - rewrite length_zip_with. lia.
  - intros i ai bi Hai Hbi. by rewrite lookup_zip_with, Hai, Hbi.
Qed.

Lemma add_elements_witness :
  wf small ∧
  ∃ st', add (E:=float_Elem) STDIndices small = Some st' ∧
    length (c st') = array_size small ∧
    ∀ i ai bi, a small !! i = Some ai → b small !! i = Some bi →
      c st' !! i = Some (float_add ai bi).
Proof.
  split; [by repeat split|].
  apply (add_elements (E:=float_Elem) STDIndices small).
  by repeat split.
Defined.
(** X6. The two backends are interchangeable on [init_arrays], [copy],
    [add] and [read_arrays], for every element type and every state whose
    arrays have [array_size] elements.  They are so on [triad] and
    [nstream] when [startScalar] has the element type, and for the element
    type [double] whatever the type of [startScalar] is, for then the
    conversion of the scalar that Thrust makes changes nothing. *)
Theorem backends_agree {T : Type} {E : Elem T} (s x y z : T)
    (d : number double) (h : Host T) (st : Stream T) (sd : Stream double) :
  wf st → wf sd →
  init_arrays STDIndices x y z st = init_arrays Thrust x y z st ∧
  copy STDIndices st = copy Thrust st ∧
  add STDIndices st = add Thrust st ∧
  read_arrays STDIndices h st = read_arrays Thrust h st ∧
  triad (InT s) STDIndices st = triad (InT s) Thrust st ∧
  nstream (InT s) STDIndices st = nstream (InT s) Thrust st ∧
  triad (E:=double_Elem) d STDIndices sd
  = triad (E:=double_Elem) d Thrust sd ∧
  nstream (E:=double_Elem) d STDIndices sd
  = nstream (E:=double_Elem) d Thrust sd.
Proof.
  intros Hwf Hwfd.
  rewrite !backend_init_arrays, !backend_copy, !backend_add,
    !backend_triad, !backend_nstream, !backend_read_arrays by done.
  repeat split; by destruct d.
Qed.

Lemma backends_agree_witness :
  wf small ∧ wf (large_small Double) ∧
  init_arrays STDIndices (float_of_Z 1) (float_of_Z 2) (float_of_Z 3) small
  = init_arrays Thrust (float_of_Z 1) (float_of_Z 2) (float_of_Z 3) small ∧
  copy STDIndices small = copy Thrust small ∧
  add (E:=float_Elem) STDIndices small = add (E:=float_Elem) Thrust small ∧
  read_arrays STDIndices small_host small
  = read_arrays Thrust small_host small ∧
  triad (E:=float_Elem) (InT (float_of_Z 2)) STDIndices small
  = triad (E:=float_Elem) (InT (float_of_Z 2)) Thrust small ∧
  nstream (E:=float_Elem) (InT (float_of_Z 2)) STDIndices small
  = nstream (E:=float_Elem) (InT (float_of_Z 2)) Thrust small ∧
  triad (E:=double_Elem) (InDouble double_0_4) STDIndices
    (large_small Double)
  = triad (E:=double_Elem) (InDouble double_0_4) Thrust
      (large_small Double) ∧
  nstream (E:=double_Elem) (InDouble double_0_4) STDIndices
    (large_small Double)
  = nstream (E:=double_Elem) (InDouble double_0_4) Thrust
      (large_small Double).
Proof.
  split; [by repeat split|]. split; [by repeat split|].
  apply (backends_agree (E:=float_Elem) (float_of_Z 2)
           (float_of_Z 1) (float_of_Z 2) (float_of_Z 3)
           (InDouble double_0_4) small_host small (large_small Double));
    by repeat split.
Defined.

(** X7. On [mul] the two backends agree for [float] and [double] when
    [startScalar] has the element type ([scalar * c[i]] and [c[i] * scalar]
    are the same IEEE product), and for [double] whatever the type of
    [startScalar] is.  For [float] with a [double] scalar they differ:
    STD-indices rounds the [double] product [0.4 * 9.0] to [float], Thrust
    rounds [0.4] to [float] and then multiplies. *)
Theorem mul_backends_agree (fmt : format) (s : spec_float)
    (d : number double) (st : Stream spec_float) :
  wf st →
  mul (E:=format_Elem fmt) (InT s) STDIndices st
  = mul (E:=format_Elem fmt) (InT s) Thrust st ∧
  mul (E:=double_Elem) d STDIndices st = mul (E:=double_Elem) d Thrust st ∧
  mul (E:=float_Elem) (InDouble double_0_4) STDIndices nine
  ≠ mul (E:=float_Elem) (InDouble double_0_4) Thrust nine.
Proof.
  intros Hwf. split; [|split].
  - rewrite !backend_mul by done. unfold mul_result.
    f_equal. f_equal. apply list_fmap_ext. intros i ci _. simpl.
    rewrite format_mul. apply SFmul_comm.
  - rewrite !(backend_mul (E:=double_Elem)) by done. unfold mul_result.
    f_equal. f_equal. apply list_fmap_ext. intros i ci _.
    destruct d; simpl; apply (SFmul_comm 53 1024).
  - by vm_compute.
Qed.

Lemma mul_backends_agree_witness :
  wf small ∧
  mul (E:=float_Elem) (InT (float_of_Z 3)) STDIndices small
  = mul (E:=float_Elem) (InT (float_of_Z 3)) Thrust small ∧
  mul (E:=double_Elem) (InDouble double_0_4) STDIndices small
  = mul (E:=double_Elem) (InDouble double_0_4) Thrust small ∧
  mul (E:=float_Elem) (InDouble double_0_4) STDIndices nine
  ≠ mul (E:=float_Elem) (InDouble double_0_4) Thrust nine.
Proof.
  split; [by repeat split|].
  apply (mul_backends_agree Float (float_of_Z 3) (InDouble double_0_4) small).
  by repeat split.
Defined.

(** X8. Arrays of size zero are accepted: every kernel succeeds and leaves
    the state as it is, [init_arrays] too, [read_arrays] leaves the host
    buffers as they are, and [dot] returns the initial value of its sum
    ([T{}] in the Thrust backend, [0.0] converted to [T] in the STD-indices
    backend). *)
Theorem empty_arrays {T : Type} {E : Elem T} {L : Reduction}
    (scalar : number T) (x y z : T)
    (bk : backend) (k : kernel) (h : Host T) (st : Stream T) :
  wf st → array_size st = 0 →
  call scalar bk k st = Some st ∧
  init_arrays bk x y z st = Some st ∧
  read_arrays bk h st = Some (h, st) ∧
  dot bk st = Some (match bk with
                    | STDIndices => of_double double_zero
                    | Thrust => elem_zero
                    end, st).
Proof.
  intros (Ha & Hb & Hc) H0. destruct st as [n la lb lc]. simpl in *.
  rewrite H0 in Ha, Hb, Hc. apply nil_length_inv in Ha, Hb, Hc. subst.
  destruct h as [ha hb hc].
  pose proof (valid_plan_0 _ (reduction_plan_valid 0)) as Hplan.
  repeat split; [by destruct k, bk | by destruct bk | by destruct bk |].
  destruct bk; unfold dot, STDIndicesStream.dot, ThrustStream.dot; simpl;
    by rewrite Hplan.
Qed.

Lemma empty_arrays_witness :
  let st := {| array_size := 0; a := []; b := []; c := [] |} in
  wf st ∧ array_size st = 0 ∧
  call (E:=float_Elem) (InDouble (double_of_Z 2)) STDIndices Nstream st
  = Some st ∧
  init_arrays STDIndices (float_of_Z 1) (float_of_Z 1) (float_of_Z 1) st
  = Some st ∧
  read_arrays STDIndices small_host st = Some (small_host, st) ∧
  dot (E:=float_Elem) (L:=sequential false) STDIndices st
  = Some (S754_zero false, st).
Proof.
  split; [by repeat split|]. split; [done|].
  apply (empty_arrays (E:=float_Elem) (L:=sequential false)
           (InDouble (double_of_Z 2))
           (float_of_Z 1) (float_of_Z 1) (float_of_Z 1) STDIndices Nstream
           small_host {| array_size := 0; a := []; b := []; c := [] |});
    by repeat split.
Defined.

(** X9. [init_arrays] brings the backend to the same state whatever kernels
    ran before: after any sequence of kernel calls, [init_arrays(x, y, z)]
    gives the state that it gives when called first. *)
Theorem init_arrays_resets {T : Type} {E : Elem T} (scalar : number T)
    (x y z : T) (bk : backend) (ks : list kernel) (st : Stream T) :
  wf st →
  run scalar bk ks st ≫= init_arrays bk x y z = init_arrays bk x y z st.
Proof.
  intros Hwf.
  destruct (run_wf scalar bk ks st Hwf) as (st' & -> & Hwf' & Hsize). simpl.
  rewrite !backend_init_arrays by done. unfold init_result.
  destruct st, st'. simpl in *. by subst.
Qed.

Lemma init_arrays_resets_witness :
  wf small ∧
  run (E:=float_Elem) (InDouble (double_of_Z 2)) Thrust [Nstream; Copy; Mul] small
    ≫= init_arrays Thrust (float_of_Z 1) (float_of_Z 2) (float_of_Z 3)
  = init_arrays Thrust (float_of_Z 1) (float_of_Z 2) (float_of_Z 3) small.
Proof.
  split; [by repeat split|].
  apply (init_arrays_resets (E:=float_Elem) (InDouble (double_of_Z 2))
           (float_of_Z 1) (float_of_Z 2) (float_of_Z 3) Thrust
           [Nstream; Copy; Mul] small).
  by repeat split.
Defined.
End CallProperties.

(** ** Construction and device listing *)
Section SetupFacts.
Import ThrustStream ThrustSetup.

Lemma host_functions ts rt device :
  device_build ts = false →
  getDeviceName (functions_system ts) rt device
  = Some "(device name unavailable)" ∧
  getDeviceDriver (functions_system ts) rt device
  = Some "(device driver unavailable)".
Proof.
  intros Hts. unfold getDeviceName, getDeviceDriver.
  destruct ts as [|sys|n]; simpl in *; [done | by rewrite Hts | done].
Qed.

Lemma device_functions ts rt device :
  device_build ts = true →
  getDeviceName (functions_system ts) rt device
  = GetDeviceProperties rt device.
Proof.
  intros Hts. unfold getDeviceName.
  destruct ts as [|sys|n]; simpl in *; [done | by rewrite Hts | done].
Qed.

Lemma device_lines_named sys rt (names : nat → string) m :
  ∀ k,
    (∀ i, k ≤ i < k + m →
       getDeviceName sys rt (Z.of_nat i) = Some (names i)) →
    device_lines sys rt (seq k m)
    = Some ((λ i, Out (pretty (Z.of_nat i) +:+ ": " +:+ names i))
              <$> seq k m).
Proof.
  induction m as [|m IH]; intros k Hnames; simpl; [done|].
  rewrite Hnames by lia. rewrite IH; [done|].
  intros i Hi. apply Hnames. lia.
Qed.

Lemma device_lines_fails sys rt (ids : list nat) i :
  i ∈ ids → getDeviceName sys rt (Z.of_nat i) = None →
  device_lines sys rt ids = None.
Proof.
  intros Hin Hfail. induction Hin as [i ids|i j ids _ IH]; simpl.
  - by rewrite Hfail.
  - destruct (getDeviceName sys rt (Z.of_nat j)); [|done]. by rewrite IH.
Qed.
End SetupFacts.

Section SetupProperties.
Import Contract Backend Calls ThrustStream ThrustSetup Examples.

(** X10. In a build of the Thrust backend for a host system (or an
    undefined or unknown one) the constructor never exits, for any device
    id: it prints the two sentinel strings, the version and the backend,
    and gives three arrays of [array_size] elements that are all [T{}]; from
    that state every sequence of kernel calls succeeds. *)
Theorem construct_host {T : Type} {E : Elem T} (ts : thrust_system)
    (rt : Runtime) (version : Z) (n : nat) (device : Z) :
  device_build ts = false →
  ∃ st,
    construct ts rt version n device
    = Some ([Out "Using CUDA device: (device name unavailable)";
             Out "Driver: (device driver unavailable)";
             Out ("Thrust version: " +:+ pretty version);
             Out (backend_line ts)], st) ∧
    wf st ∧ array_size st = n ∧
    a st = all_equal n elem_zero ∧
    b st = all_equal n elem_zero ∧
    c st = all_equal n elem_zero ∧
    ∀ scalar ks, ∃ st',
      run scalar Thrust ks st = Some st' ∧ array_size st' = n.
Proof.
  intros Hts. destruct (host_functions ts rt device Hts) as [Hname Hdriver].
  eexists. unfold construct. rewrite Hname, Hdriver. simpl.
  split; [done|].
  assert (Hwf : wf (T:=T) {| array_size := n;
                      a := replicate n elem_zero;
                      b := replicate n elem_zero;
                      c := replicate n elem_zero |}).
  { unfold wf; simpl. by rewrite !length_replicate. }
  repeat split; try done; try apply length_replicate.
  intros scalar ks.
  destruct (run_wf scalar Thrust ks _ Hwf) as (st' & Hrun & _ & Hsize).
  by exists st'.
Qed.

Lemma construct_host_witness :
  device_build (Known OMP) = false ∧
  ∃ st,
    construct (E:=float_Elem) (Known OMP) no_runtime 200400 2 7
    = Some ([Out "Using CUDA device: (device name unavailable)";
             Out "Driver: (device driver unavailable)";
             Out ("Thrust version: " +:+ pretty 200400%Z);
             Out (backend_line (Known OMP))], st) ∧
    wf st ∧ array_size st = 2 ∧
    a st = all_equal 2 (S754_zero false) ∧
    b st = all_equal 2 (S754_zero false) ∧
    c st = all_equal 2 (S754_zero false) ∧
    ∀ scalar ks, ∃ st',
      run (E:=float_Elem) scalar Thrust ks st = Some st' ∧
      array_size st' = 2.
Proof.
  split; [reflexivity|].
  apply (construct_host (E:=float_Elem) (Known OMP) no_runtime 200400 2 7).
  reflexivity.
Defined.

(** X12. In a build for a device with a non-zero device count,
    [listDevices] prints an empty line, the header, one line ["i: name"]
    per device in increasing order of [i] from 0, and an empty line, when
    the runtime knows the name of every device below the count. *)
Theorem listDevices_named (ts : thrust_system) (rt : Runtime) (n : Z)
    (names : nat → string) :
  device_build ts = true → n ≠ 0%Z →
  (∀ i, i < Z.to_nat n →
     GetDeviceProperties rt (Z.of_nat i) = Some (names i)) →
  listDevices ts rt (Some n)
  = Some ([Out ""; Out "Devices:"]
          ++ ((λ i, Out (pretty (Z.of_nat i) +:+ ": " +:+ names i))
                <$> seq 0 (Z.to_nat n))
          ++ [Out ""]).
Proof.
  intros Hts Hn Hnames. unfold listDevices. rewrite Hts. simpl.
  rewrite (proj2 (Z.eqb_neq n 0) Hn).
  rewrite (device_lines_named _ rt names); [done|].
  intros i Hi. rewrite device_functions by done. apply Hnames. lia.
Qed.

Lemma listDevices_named_witness :
  let rt := {| GetDeviceProperties := λ d, Some ("gpu" +:+ pretty d);
               SetDevice := λ _, true;
               DriverGetVersion := Some 12040%Z |} in
  device_build (Known CUDA) = true ∧ 2%Z ≠ 0%Z ∧
  listDevices (Known CUDA) rt (Some 2%Z)
  = Some [Out ""; Out "Devices:"; Out "0: gpu0"; Out "1: gpu1"; Out ""].
Proof.
  split; [reflexivity|]. split; [done|].
  rewrite (listDevices_named (Known CUDA) _ 2
             (λ i, "gpu" +:+ pretty (Z.of_nat i))); [done..|].
  by intros i Hi.
Defined.

(** X13. [listDevices] in a build for a device exits when the runtime fails
    to count the devices or to name a device below the count.  A count of
    zero gives the single line "No devices found." on the error stream; a
    negative count gives the header between two empty lines and no device.
    In a build without device, the only line is "0: CPU". *)
Theorem listDevices_edges (ts : thrust_system) (rt : Runtime) (n : Z)
    (i : nat) :
  (device_build ts = true → n ≠ 0%Z →
   i < Z.to_nat n → GetDeviceProperties rt (Z.of_nat i) = None →
   listDevices ts rt (Some n) = None) ∧
  (device_build ts = true → listDevices ts rt None = None) ∧
  (device_build ts = true →
   listDevices ts rt (Some 0%Z) = Some [Err "No devices found."]) ∧
  (device_build ts = true → (n < 0)%Z →
   listDevices ts rt (Some n) = Some [Out ""; Out "Devices:"; Out ""]) ∧
  (device_build ts = false →
   ∀ count, listDevices ts rt count = Some [Out "0: CPU"]).
Proof.
  unfold listDevices. repeat split.
  - intros Hts Hn Hi Hfail. rewrite Hts. simpl.
    rewrite (proj2 (Z.eqb_neq n 0) Hn).
    rewrite (device_lines_fails _ rt _ i); [done | |].
    + apply elem_of_seq. lia.
    + by rewrite device_functions.
  - by intros ->.
  - by intros ->.
  - intros -> Hn. by destruct n as [|p|p]; [lia | lia |].
  - by intros ->.
Qed.

Lemma listDevices_edges_witness :
  listDevices (Known CUDA) no_runtime (Some 3%Z) = None ∧
  listDevices (Known CUDA) no_runtime None = None ∧
  listDevices (Known CUDA) no_runtime (Some 0%Z)
  = Some [Err "No devices found."] ∧
  listDevices (Known HIP) no_runtime (Some (-1)%Z)
  = Some [Out ""; Out "Devices:"; Out ""] ∧
  listDevices (Known TBB) no_runtime (Some 3%Z) = Some [Out "0: CPU"].
Proof.
  destruct (listDevices_edges (Known CUDA) no_runtime 3 1)
    as (Hfail & Hcount & Hzero & _ & _).
  destruct (listDevices_edges (Known HIP) no_runtime (-1) 0)
    as (_ & _ & _ & Hneg & _).
  destruct (listDevices_edges (Known TBB) no_runtime 3 0)
    as (_ & _ & _ & _ & Hhost).
  split; [apply Hfail; (reflexivity || done || (simpl; lia))|].
  split; [by apply Hcount|]. split; [by apply Hzero|].
  split; [by apply Hneg|]. by apply Hhost.
Defined.
End SetupProperties.

(** ** Exact dot products *)
Section DotFacts.
Import Contract.
Open Scope Z_scope.

Lemma is_nat_SFtoZ prec x X : 0 < prec → is_nat prec x X → SFtoZ x = Some X.
Proof.
  intros Hprec. unfold is_nat. destruct (Z.eqb_spec X 0) as [->|_].
  - by intros ->.
  - by apply is_int_SFtoZ.
Qed.

(** Addition of natural numbers is exact up to [2 ^ prec]. *)
Lemma SFadd_nat prec emax x y X Y :
  0 < prec → prec < emax →
  is_nat prec x X → is_nat prec y Y → 0 ≤ X → 0 ≤ Y → X + Y ≤ 2 ^ prec →
  is_nat prec (SFadd prec emax x y) (X + Y).
Proof.
  intros Hprec Hemax. unfold is_nat.
  destruct (Z.eqb_spec X 0) as [->|HX], (Z.eqb_spec Y 0) as [->|HY];
    intros Hx Hy HX0 HY0 Hle.
  - by subst.
  - subst x. rewrite (proj2 (Z.eqb_neq _ _)) by lia.
    replace (SFadd prec emax (S754_zero false) y) with y
      by (by destruct Hy as (m & e & -> & _)).
    done.
  - subst y. rewrite Z.add_0_r, (proj2 (Z.eqb_neq _ _)) by lia.
    replace (SFadd prec emax x (S754_zero false)) with x
      by (by destruct Hx as (m & e & -> & _)).
    done.
  - rewrite (proj2 (Z.eqb_neq _ _)) by lia.
    apply SFadd_int; (done || lia).
Qed.

Lemma format_prec_53 fmt : 2 ^ format_prec fmt ≤ 2 ^ 53.
Proof. destruct fmt; simpl; lia. Qed.

(** The conversions of a natural number are exact. *)
Lemma as_double_nat fmt v X :
  number_is_nat fmt v X →
  is_nat 53 (as_double (E:=format_Elem fmt) v) X.
Proof.
  destruct v as [t|d]; [|done]. destruct fmt; [|done].
  simpl. unfold is_nat. destruct (X =? 0).
  - by intros ->.
  - apply double_of_float_int.
Qed.

Lemma as_T_nat fmt v X :
  number_is_nat fmt v X → 0 ≤ X ≤ 2 ^ format_prec fmt →
  is_nat (format_prec fmt) (as_T (E:=format_Elem fmt) v) X.
Proof.
  destruct v as [t|d]; [done|]. destruct fmt; [|done].
  simpl. unfold is_nat. destruct (Z.eqb_spec X 0) as [->|HX].
  - by intros ->.
  - intros Hd HXr. apply float_of_double_int; [done | lia].
Qed.

(** One addition of a plan is exact on natural numbers. *)
Lemma plan_add_nat fmt wide x y X Y :
  number_is_nat fmt x X → number_is_nat fmt y Y → 0 ≤ X → 0 ≤ Y →
  X + Y ≤ 2 ^ format_prec fmt →
  number_is_nat fmt (plan_add (E:=format_Elem fmt) wide x y) (X + Y).
Proof.
  intros Hx Hy HX HY Hle.
  pose proof (format_prec_emax fmt) as [Hprec Hemax].
  pose proof (format_prec_53 fmt) as H53.
  destruct wide; simpl.
  - apply (SFadd_nat 53 1024); try lia; by apply (as_double_nat fmt).
  - rewrite format_add.
    apply SFadd_nat; try lia; apply as_T_nat; (done || lia).
Qed.

(** Every partial sum of a plan over products that are all [2] is an exact
    integer, whatever the order, the grouping and the types of the
    additions. *)
Lemma plan_value_twos fmt mixed init (n : nat) p :
  number_is_nat fmt init 0 →
  Forall (λ i, (i < n)%nat) (indices p) →
  2 * Z.of_nat (length (indices p)) ≤ 2 ^ format_prec fmt →
  ∃ v, plan_value (E:=format_Elem fmt) mixed init p
         (replicate n (format_of_Z fmt 2)) = Some v ∧
       number_is_nat fmt v (2 * Z.of_nat (length (indices p))).
Proof.
  intros Hinit.
  induction p as [|i|wide l IHl r IHr]; intros Hidx Hle;
    cbn [indices plan_value] in Hidx, Hle |- *.
  - by exists init.
  - rewrite Forall_singleton in Hidx.
    rewrite lookup_replicate_2 by done. eexists; split; [done|].
    apply format_two.
  - apply Forall_app in Hidx as [Hl Hr].
    rewrite length_app, Nat2Z.inj_add, Z.mul_add_distr_l in Hle |- *.
    destruct (IHl Hl ltac:(lia)) as (x & -> & Hx).
    destruct (IHr Hr ltac:(lia)) as (y & -> & Hy).
    eexists; split; [done|]. apply plan_add_nat; (done || lia).
Qed.

Lemma generalized_sum_twos fmt mixed init (n : nat) r :
  number_is_nat fmt init 0 → 2 * Z.of_nat n ≤ 2 ^ format_prec fmt →
  generalized_sum (E:=format_Elem fmt) mixed init
    (replicate n (format_of_Z fmt 2)) r →
  SFtoZ r = Some (2 * Z.of_nat n).
Proof.
  intros Hinit Hle (p & v & Hvalid & Hv & ->).
  rewrite length_replicate in Hvalid.
  assert (Hlen : length (indices p) = n).
  { destruct Hvalid as [Hperm _]. by rewrite Hperm, length_seq. }
  destruct (plan_value_twos fmt mixed init n p Hinit
              (valid_plan_indices _ _ Hvalid) ltac:(lia)) as (v' & Hv' & Hnat).
  rewrite Hv in Hv'. injection Hv' as <-. rewrite Hlen in Hnat.
  pose proof (format_prec_emax fmt) as [Hprec Hemax].
  apply (is_nat_SFtoZ (format_prec fmt)); [done|].
  apply as_T_nat; [done | lia].
Qed.
End DotFacts.

Section DotProperties.
Import Contract Backend Examples.

(** X14. On arrays [a] of ones and [b] of twos, [dot] returns exactly
    [2 * array_size], in both backends and for [float] and [double], as
    long as [2 * array_size] is at most [2^24] for [float] and [2^53] for
    [double]: no addition of the sum is rounded. *)
Theorem dot_ones_twos {L : Reduction} (fmt : format) (bk : backend)
    (st : Stream spec_float) :
  wf st →
  a st = all_equal (array_size st) (format_of_Z fmt 1) →
  b st = all_equal (array_size st) (format_of_Z fmt 2) →
  (2 * Z.of_nat (array_size st) ≤ 2 ^ format_prec fmt)%Z →
  ∃ r, dot (E:=format_Elem fmt) bk st = Some (r, st) ∧
       SFtoZ r = Some (2 * Z.of_nat (array_size st))%Z.
Proof.
  intros Hwf Ha Hb Hle.
  destruct (backend_dot (E:=format_Elem fmt) bk st Hwf) as (r & Hdot & Hsum).
  exists r. split; [done|].
  assert (Hprod : @elem_mul _ (format_Elem fmt)
                    (format_of_Z fmt 1) (format_of_Z fmt 2)
                  = format_of_Z fmt 2).
  { rewrite format_mul, SFmul_comm. apply format_two_one. }
  rewrite Ha, Hb in Hsum. unfold all_equal in Hsum.
  rewrite zip_with_replicate, Hprod in Hsum.
  destruct bk; simpl in Hsum.
  - by apply (generalized_sum_twos fmt true (InDouble double_zero)).
  - apply (generalized_sum_twos fmt false
             (InT (@elem_zero _ (format_Elem fmt)))); [|done..].
    by destruct fmt.
Qed.

Lemma dot_ones_twos_witness :
  let st := {| array_size := 3;
               a := replicate 3 (float_of_Z 1);
               b := replicate 3 (float_of_Z 2);
               c := replicate 3 (float_of_Z 0) |} in
  wf st ∧
  ∃ r, dot (E:=float_Elem) (L:=sequential false) STDIndices st
       = Some (r, st) ∧
       SFtoZ r = Some 6%Z.
Proof.
  split; [by repeat split|].
  apply (dot_ones_twos (L:=sequential false) Float STDIndices
           {| array_size := 3;
              a := replicate 3 (float_of_Z 1);
              b := replicate 3 (float_of_Z 2);
              c := replicate 3 (float_of_Z 0) |});
    try done; by vm_compute.
Defined.
End DotProperties.

(** ** Arrays of equal elements *)
Section GoldProperties.
Import Contract Backend Calls Gold.

Lemma call_uniform {T : Type} {E : Elem T} (scalar : number T) (bk : backend)
    (k : kernel) (n : nat) (v : T * T * T) :
  call scalar bk k (uniform n v) = Some (uniform n (gold_step scalar bk v k)).
Proof.
  assert (Hwf : wf (uniform n v)).
  { unfold wf, uniform; simpl. by rewrite !length_replicate. }
  destruct v as [[va vb] vc].
  destruct k; cbn [call].
  - by rewrite backend_copy.
  - rewrite backend_mul by done. unfold mul_result, uniform; simpl.
    by rewrite fmap_replicate.
  - rewrite backend_add by done. unfold add_result, uniform; simpl.
    by rewrite zip_with_replicate.
  - rewrite backend_triad by done. unfold triad_result, uniform; simpl.
    by rewrite zip_with_replicate.
  - rewrite backend_nstream by done. unfold nstream_result, map3, uniform; simpl.
    by rewrite !zip_with_replicate.
Qed.

(** X15. Arrays of equal elements stay so: on arrays that hold one value
    each (as after [init_arrays]), any sequence of kernel calls gives
    arrays that hold one value each, the values that the lambdas of the
    kernels of that backend compute from the three initial values: in the
    STD-indices backend with the scalar in the type of [startScalar], in
    the Thrust backend with the scalar converted to [T]. *)
Theorem run_uniform {T : Type} {E : Elem T} (scalar : number T) (x y z : T)
    (bk : backend) (ks : list kernel) (n : nat) (v : T * T * T) :
  init_arrays bk x y z (uniform n v) = Some (uniform n (x, y, z)) ∧
  run scalar bk ks (uniform n v)
  = Some (uniform n (foldl (gold_step scalar bk) v ks)).
Proof.
  split.
  - rewrite backend_init_arrays; [done|].
    unfold wf, uniform; simpl. by rewrite !length_replicate.
  - revert v. induction ks as [|k ks IH]; intros v; simpl; [done|].
    rewrite call_uniform. apply IH.
Qed.
End GoldProperties.

(** ** Libraries that reduce in index order *)
Section SequentialFacts.
Context {T : Type} {E : Elem T}.
Import Contract.

(** The additions of [dot] in [double] from [init], in index order. *)
#[local] Abbreviation double_fold init products :=
  (foldl (λ acc p, double_add acc (to_double p)) init products).

Lemma plan_value_index_order mixed init wide (products : list T) (m : nat) :
  m ≤ length products →
  ∃ v, plan_value mixed init (index_order wide m) products = Some v ∧
    (mixed && wide = false →
     as_T v = foldl elem_add (as_T init) (take m products)) ∧
    (mixed && wide = true → ∀ d, init = InDouble d →
     v = InDouble (double_fold d (take m products))).
Proof.
  induction m as [|m IH]; intros Hm; cbn [index_order plan_value].
  - exists init. split; [done|]. split; [done|]. by intros _ d ->.
  - destruct (IH ltac:(lia)) as (x & -> & HT & HD).
    destruct (lookup_lt_is_Some_2 products m) as [q Hq]; [lia|].
    rewrite Hq. simpl. eexists; split; [done|].
    rewrite (take_S_r _ _ _ Hq), !foldl_app. simpl. split.
    + intros Hw. rewrite Hw. simpl. by rewrite (HT Hw).
    + intros Hw d Hd. rewrite Hw. simpl. by rewrite (HD Hw d Hd), foldl_app.
Qed.

Lemma products_length (st : Stream T) :
  wf st → length (zip_with elem_mul (a st) (b st)) = array_size st.
Proof. intros (Ha & Hb & Hc). rewrite length_zip_with. lia. Qed.

Lemma std_dot_sequential wide (st : Stream T) :
  wf st →
  ∃ v, STDIndicesStream.dot (L:=sequential wide) st = Some (as_T v, st) ∧
    (wide = false →
     as_T v = dot_product (of_double double_zero) (a st) (b st)) ∧
    (wide = true →
     v = InDouble
           (double_fold double_zero (zip_with elem_mul (a st) (b st)))).
Proof.
  intros Hwf. unfold STDIndicesStream.dot.
  pose proof (reduction_plan_valid (Reduction:=sequential wide)
                (array_size st)) as Hvalid.
  destruct (std_transform_reduce st Hwf _ (valid_plan_indices _ _ Hvalid))
    as (v & -> & Hv).
  exists v. split; [done|].
  pose proof (products_length st Hwf) as Hlen.
  destruct (plan_value_index_order true (InDouble double_zero) wide
              (zip_with elem_mul (a st) (b st)) (array_size st) ltac:(lia))
    as (v' & Hv' & HT & HD).
  change (reduction_plan (array_size st))
    with (index_order wide (array_size st)) in Hv.
  rewrite Hv in Hv'. injection Hv' as <-.
  rewrite firstn_all2 in HT, HD by lia.
  split; [done|]. intros Hw. by apply HD.
Qed.

Lemma thrust_dot_sequential wide (st : Stream T) :
  wf st →
  ThrustStream.dot (L:=sequential wide) st
  = Some (dot_product elem_zero (a st) (b st), st).
Proof.
  intros Hwf. unfold ThrustStream.dot.
  pose proof (wf_get A st Hwf) as Hlen. simpl in Hlen. rewrite Hlen.
  pose proof (reduction_plan_valid (Reduction:=sequential wide)
                (array_size st)) as Hvalid.
  destruct (thrust_inner_product st elem_zero Hwf _
              (valid_plan_indices _ _ Hvalid)) as (v & -> & Hv).
  pose proof (products_length st Hwf) as Hlen'.
  destruct (plan_value_index_order false (InT elem_zero) wide
              (zip_with elem_mul (a st) (b st)) (array_size st) ltac:(lia))
    as (v' & Hv' & HT & _).
  change (reduction_plan (array_size st))
    with (index_order wide (array_size st)) in Hv.
  rewrite Hv in Hv'. injection Hv' as <-.
  rewrite firstn_all2 in HT by lia. simpl. by rewrite HT.
Qed.
End SequentialFacts.

Section SequentialProperties.
Import Contract Backend Examples.

(** X16. With libraries that reduce one element after the other in index
    order, [dot] is a left fold over the products [a[i] * b[i]]: in [T] from
    [T{}] in the Thrust backend; in the STD-indices backend in [T] from
    [0.0] converted to [T] when the library adds with [std::plus] of the
    value type, and in [double] from [0.0], converted to [T] at the end,
    when it adds with [std::plus<>].  For [float] and [double] the first
    two are the same value. *)
Theorem dot_sequential {T : Type} {E : Elem T} (wide : bool) (st : Stream T)
    (fmt : format) (sf : Stream spec_float) :
  wf st → wf sf →
  dot (L:=sequential wide) Thrust st
  = Some (dot_product elem_zero (a st) (b st), st) ∧
  dot (L:=sequential false) STDIndices st
  = Some (dot_product (of_double double_zero) (a st) (b st), st) ∧
  dot (L:=sequential true) STDIndices st
  = Some (of_double
            (foldl (λ acc p, double_add acc (to_double p)) double_zero
               (zip_with elem_mul (a st) (b st))), st) ∧
  dot (E:=format_Elem fmt) (L:=sequential false) STDIndices sf
  = dot (E:=format_Elem fmt) (L:=sequential wide) Thrust sf.
Proof.
  intros Hwf Hwfs. split; [by apply thrust_dot_sequential|].
  split; [|split].
  - destruct (std_dot_sequential false st Hwf) as (v & Hdot & HT & _).
    simpl. by rewrite Hdot, HT.
  - destruct (std_dot_sequential true st Hwf) as (v & Hdot & _ & HD).
    simpl. by rewrite Hdot, HD.
  - simpl. rewrite (thrust_dot_sequential (E:=format_Elem fmt)) by done.
    destruct (std_dot_sequential (E:=format_Elem fmt) false sf Hwfs)
      as (v & Hdot & HT & _).
    rewrite Hdot, HT by done. by destruct fmt.
Qed.

Lemma dot_sequential_witness :
  wf (large_small Float) ∧
  dot (E:=float_Elem) (L:=sequential false) Thrust (large_small Float)
  = Some (float_of_Z 16777216, large_small Float) ∧
  dot (E:=float_Elem) (L:=sequential false) STDIndices (large_small Float)
  = Some (float_of_Z 16777216, large_small Float) ∧
  dot (E:=float_Elem) (L:=sequential true) STDIndices (large_small Float)
  = Some (float_of_Z 16777218, large_small Float).
Proof.
  assert (Hwf : wf (large_small Float)) by (by repeat split).
  destruct (dot_sequential (E:=float_Elem) false (large_small Float)
              Float (large_small Float) Hwf Hwf) as (Ht & Hn & Hw & _).
  split; [exact Hwf|]. rewrite Ht, Hn, Hw. by vm_compute.
Defined.
End SequentialProperties.
